(** * The three-layer autoencoder of [part_b/modified_neural_network.py]

    A shallow embedding of [AutoEncoder], [train] and [evaluate].

    Conventions of the embedding.
    - A tensor entry is a real number: [torch.FloatTensor] arithmetic is read
      as arithmetic on [R].  Where single precision decides a property (the
      range of the logistic function), the operation is rounded to binary32:
      see [sigmoid32] and [forward32].
    - A 1-D tensor is a [list R], a 2-D tensor the list of its rows.  The
      leading batch dimension of size one that [unsqueeze(0)] adds and
      [output[0]] removes again is left implicit.
    - A cell of the raw response matrix is an [option R]: [None] is [nan].
    - Python exceptions are the constructors of [exn]; a function that may
      raise returns a [result].
    - The objects a function receives by reference (the module, the tensors)
      form the state of a small state-and-exception monad [M]. *)

From Stdlib Require Import Reals Lra Lia ZArith List Bool Permutation.
Import ListNotations.

Local Open Scope R_scope.

(** ** Exceptions and results *)

Inductive exn : Type :=
| IndexError
| ZeroDivisionError
| ValueError
| RuntimeError.

Inductive result (A : Type) : Type :=
| Ok (a : A)
| Raise (e : exn).

Arguments Ok {A} a.
Arguments Raise {A} e.

Definition rbind {A B : Type} (r : result A) (k : A -> result B) : result B :=
  match r with
  | Ok a => k a
  | Raise e => Raise e
  end.

Declare Scope result_scope.
Delimit Scope result_scope with res.
Notation "x <- e ;; k" := (rbind e (fun x => k))
  (at level 61, e at next level, right associativity) : result_scope.

(** ** Tensors *)

(** [t[i]] for a tensor or a list and a Python integer [i]: a negative index
    counts from the end, anything outside [-n .. n-1] raises [IndexError]. *)
Definition py_index {A : Type} (t : list A) (i : Z) : result A :=
  let n := Z.of_nat (length t) in
  let j := if (i <? 0)%Z then (n + i)%Z else i in
  if ((0 <=? j)%Z && (j <? n)%Z)%bool then
    match nth_error t (Z.to_nat j) with
    | Some a => Ok a
    | None => Raise IndexError
    end
  else Raise IndexError.

(** [l[i]] for a Python list and an index produced by [enumerate] or
    [range]. *)
Definition list_get {A : Type} (l : list A) (i : nat) : result A :=
  match nth_error l i with
  | Some a => Ok a
  | None => Raise IndexError
  end.

(** The inner product of a weight row with the input; operands of different
    sizes are a shape error. *)
Fixpoint dot (w x : list R) : result R :=
  match w, x with
  | [], [] => Ok 0
  | wi :: w', xi :: x' => (r <- dot w' x' ;; Ok (wi * xi + r))%res
  | _, _ => Raise RuntimeError
  end.

(** [torch.sum(t ** 2)] over a matrix. *)
Definition sum_list (l : list R) : R := fold_right Rplus 0 l.

Definition sum_sq (l : list R) : R := sum_list (map (fun x => x ^ 2) l).

Definition frobenius_sq (w : list (list R)) : R := sum_list (map sum_sq w).

(** [torch.norm(w, 2)]: with no [dim] the tensor is flattened and the vector
    2-norm is taken. *)
Definition norm2 (w : list (list R)) : R := sqrt (frobenius_sq w).

(** [torch.sigmoid] *)
Definition sigmoid (x : R) : R := 1 / (1 + exp (- x)).

(** ** [nn.Linear] *)

Record Linear : Type := mkLinear {
  weight : list (list R);   (* out_features rows of in_features entries *)
  bias : list R             (* out_features entries *)
}.

(** The shape [nn.Linear(n_in, n_out)] constructs. *)
Definition wf_linear (n_in n_out : nat) (l : Linear) : Prop :=
  length (weight l) = n_out /\
  Forall (fun row => length row = n_in) (weight l) /\
  length (bias l) = n_out.

(** [F.linear(x, W, b) = x W^T + b], one output per row of [W]; a layer built
    by [nn.Linear] has one bias per row. *)
Fixpoint linear_rows (w : list (list R)) (b : list R) (x : list R)
  : result (list R) :=
  match w, b with
  | [], [] => Ok []
  | row :: w', bj :: b' =>
      (v <- dot row x ;;
       rest <- linear_rows w' b' x ;;
       Ok (v + bj :: rest))%res
  | _, _ => Raise RuntimeError
  end.

Definition apply_linear (l : Linear) (x : list R) : result (list R) :=
  linear_rows (weight l) (bias l) x.

(** ** [class AutoEncoder] *)

Record AutoEncoder : Type := mkAutoEncoder {
  g : Linear;
  hidden : Linear;
  h : Linear;
  training : bool           (* the flag [model.train()] / [model.eval()] set *)
}.

(** [AutoEncoder(num_question, k)] *)
Definition wf_model (num_question k : nat) (m : AutoEncoder) : Prop :=
  wf_linear num_question k (g m) /\
  wf_linear k k (hidden m) /\
  wf_linear k num_question (h m).

Definition same_parameters (m m' : AutoEncoder) : Prop :=
  g m' = g m /\ hidden m' = hidden m /\ h m' = h m.

(** [AutoEncoder.get_weight_norm] *)
Definition get_weight_norm (m : AutoEncoder) : R :=
  let g_w_norm := norm2 (weight (g m)) ^ 2 in
  let hidden_w_norm := norm2 (weight (hidden m)) ^ 2 in
  let h_w_norm := norm2 (weight (h m)) ^ 2 in
  g_w_norm + h_w_norm.

(** [AutoEncoder.forward] *)
Definition forward (m : AutoEncoder) (inputs : list R) : result (list R) :=
  (let out := inputs in
   out <- apply_linear (g m) out ;;
   let out := map sigmoid out in
   out <- apply_linear (hidden m) out ;;
   let out := map sigmoid out in
   out <- apply_linear (h m) out ;;
   let out := map sigmoid out in
   Ok out)%res.

(** ** The sigmoid in single precision

    Rounding to the nearest binary32 number, ties to even, with gradual
    underflow; a result of magnitude [2^128] or more is an infinity. *)

(** [2^z] *)
Definition bpow (z : Z) : R := exp (IZR z * ln 2).

(** The integer nearest to [x], the even one of two that are equally near. *)
Definition Znearest_even (x : R) : Z :=
  let f := Int_part x in
  let d := x - IZR f in
  if Rlt_dec d (1 / 2) then f
  else if Rlt_dec (1 / 2) d then (f + 1)%Z
  else if Z.even f then f else (f + 1)%Z.

(** The binary exponent of [x]: [2^(mag2 x) <= |x| < 2^(mag2 x + 1)]. *)
Definition mag2 (x : R) : Z := Int_part (ln (Rabs x) / ln 2).

(** The spacing of the binary32 numbers around [x]: 24 significant bits, and
    [2^-149] below the smallest normal number [2^-126]. *)
Definition ulp32 (x : R) : R := bpow (Z.max (mag2 x) (-126) - 23).

(** [x] rounded to binary32, before the overflow test. *)
Definition rn32 (x : R) : R := IZR (Znearest_even (x / ulp32 x)) * ulp32 x.

(** [x] rounded to binary32: [None] is an infinity. *)
Definition fl32 (x : R) : option R :=
  let r := rn32 x in
  if Rlt_dec (Rabs r) (bpow 128) then Some r else None.

(** [torch.sigmoid] on a float32 tensor: [1 / (1 + exp(-x))] with each
    operation rounded (the exponential is taken as correctly rounded).  When
    [exp(-x)] overflows to infinity, so does the sum, and the quotient is
    0; otherwise the sum and the quotient are far from the overflow
    threshold. *)
Definition sigmoid32 (x : R) : R :=
  match fl32 (exp (- x)) with
  | None => 0
  | Some t => rn32 (1 / rn32 (1 + t))
  end.

Arguments sigmoid32 : simpl never.

(** [AutoEncoder.forward] with the three sigmoids in single precision; the
    affine transforms are kept exact, so the pre-activation that reaches a
    sigmoid is any real number. *)
Definition forward32 (m : AutoEncoder) (inputs : list R) : result (list R) :=
  (let out := inputs in
   out <- apply_linear (g m) out ;;
   let out := map sigmoid32 out in
   out <- apply_linear (hidden m) out ;;
   let out := map sigmoid32 out in
   out <- apply_linear (h m) out ;;
   let out := map sigmoid32 out in
   Ok out)%res.

(** ** State and exceptions

    A computation over the objects it was handed by reference: it returns the
    objects as it leaves them, together with its value or the exception it
    raised. *)

Definition M (S A : Type) : Type := S -> S * result A.

Definition ret {S A : Type} (a : A) : M S A := fun s => (s, Ok a).

Definition raise {S A : Type} (e : exn) : M S A := fun s => (s, Raise e).

Definition bind {S A B : Type} (c : M S A) (k : A -> M S B) : M S B :=
  fun s =>
    match c s with
    | (s', Ok a) => k a s'
    | (s', Raise e) => (s', Raise e)
    end.

Definition gets {S A : Type} (f : S -> A) : M S A := fun s => (s, Ok (f s)).

Definition modify {S : Type} (f : S -> S) : M S unit := fun s => (f s, Ok tt).

Definition lift {S A : Type} (r : result A) : M S A := fun s => (s, r).

Declare Scope monad_scope.
Delimit Scope monad_scope with monad.
Notation "x <- c ;; k" := (bind c (fun x => k))
  (at level 61, c at next level, right associativity) : monad_scope.
Notation "c ;; k" := (bind c (fun _ => k))
  (at level 61, right associativity) : monad_scope.

(** ** [evaluate] *)

(** [valid_data]: a dictionary of three parallel lists. *)
Record triples : Type := mkTriples {
  user_id : list Z;
  question_id : list Z;
  is_correct : list Z
}.

(** What [evaluate(model, train_data, valid_data)] holds by reference. *)
Record EvalEnv : Type := mkEvalEnv {
  ev_model : AutoEncoder;
  ev_train_data : list (list R)
}.

Definition set_training (b : bool) (m : AutoEncoder) : AutoEncoder :=
  mkAutoEncoder (g m) (hidden m) (h m) b.

(** [model.eval()] *)
Definition model_eval : M EvalEnv unit :=
  modify (fun s => mkEvalEnv (set_training false (ev_model s)) (ev_train_data s)).

(** [x >= y] on floats. *)
Definition Rge_bool (x y : R) : bool :=
  if Rge_dec x y then true else false.

(** [guess == label] for a Python [bool] and an [int]: [True == 1] and
    [False == 0]. *)
Definition py_bool_eq_int (b : bool) (n : Z) : bool := (Z.b2z b =? n)%Z.

(** The body of the loop of [evaluate] for the triple at position [i], whose
    user is [u]; [(correct, total)] are the two counters. *)
Definition evaluate_body (valid_data : triples) (i : nat) (u : Z)
    (counters : nat * nat) : M EvalEnv (nat * nat) :=
  (let '(correct, total) := counters in
   train_data <- gets ev_train_data ;;
   inputs <- lift (py_index train_data u) ;;
   model <- gets ev_model ;;
   output <- lift (forward model inputs) ;;
   q <- lift (list_get (question_id valid_data) i) ;;
   value <- lift (py_index output q) ;;
   let guess := Rge_bool value 0.5 in
   label <- lift (list_get (is_correct valid_data) i) ;;
   let correct := if py_bool_eq_int guess label then S correct else correct in
   ret (correct, S total))%monad.

(** [for i, u in enumerate(valid_data["user_id"])], from position [i] on. *)
Fixpoint evaluate_loop (valid_data : triples) (i : nat) (users : list Z)
    (counters : nat * nat) : M EvalEnv (nat * nat) :=
  match users with
  | [] => ret counters
  | u :: users' =>
      (counters' <- evaluate_body valid_data i u counters ;;
       evaluate_loop valid_data (S i) users' counters')%monad
  end.

(** [correct / float(total)] *)
Definition py_div (correct total : nat) : result R :=
  match total with
  | O => Raise ZeroDivisionError
  | S _ => Ok (INR correct / INR total)
  end.

Definition evaluate (valid_data : triples) : M EvalEnv R :=
  (model_eval ;;
   counters <- evaluate_loop valid_data 0 (user_id valid_data) (0%nat, 0%nat) ;;
   lift (py_div (fst counters) (snd counters)))%monad.

(** ** [train] *)

(** A cell of the raw matrix; [np.isnan] on it. *)
Definition cell : Type := option R.

Definition isnan (c : cell) : bool :=
  match c with
  | None => true
  | Some _ => false
  end.

(** [target[0][nan_mask] = output[0][nan_mask]]: the mask must have the shape
    of both tensors. *)
Fixpoint index_put (target output : list R) (nan_mask : list bool)
  : result (list R) :=
  match target, output, nan_mask with
  | [], [], [] => Ok []
  | t :: target', o :: output', b :: nan_mask' =>
      (rest <- index_put target' output' nan_mask' ;;
       Ok ((if b then o else t) :: rest))%res
  | _, _, _ => Raise IndexError
  end.

(** [output - target]; after [index_put] the two have one size, so no
    broadcasting of a size-one tensor takes place. *)
Fixpoint tensor_sub (a b : list R) : result (list R) :=
  match a, b with
  | [], [] => Ok []
  | x :: a', y :: b' => (rest <- tensor_sub a' b' ;; Ok (x - y :: rest))%res
  | _, _ => Raise RuntimeError
  end.

(** [torch.sum((output - target) ** 2.) + lamb / 2 * model.get_weight_norm()] *)
Definition sample_loss (lamb : R) (model : AutoEncoder)
    (output target : list R) : result R :=
  (diff <- tensor_sub output target ;;
   Ok (sum_sq diff + lamb / 2 * get_weight_norm model))%res.

(** [optim.SGD(model.parameters(), lr=...)] with its defaults (no momentum, no
    weight decay): the optimizer is its learning rate.  The constructor
    refuses a negative rate with a [ValueError]. *)
Record SGD : Type := mkSGD { sgd_lr : R }.

Definition SGD_init (lr : R) : result SGD :=
  if Rlt_dec lr 0 then Raise ValueError else Ok (mkSGD lr).

(** The gradients [loss.backward()] leaves on the parameters, one tensor per
    weight and bias. *)
Record Grads : Type := mkGrads {
  d_g : Linear;
  d_hidden : Linear;
  d_h : Linear
}.

Fixpoint zip_with {A B C : Type} (f : A -> B -> C) (a : list A) (b : list B)
  : list C :=
  match a, b with
  | x :: a', y :: b' => f x y :: zip_with f a' b'
  | _, _ => []
  end.

(** [p.add_(p.grad, alpha=-lr)] on a weight and a bias; a gradient has the
    shape of its parameter. *)
Definition sgd_linear (lr : R) (l d : Linear) : Linear :=
  mkLinear
    (zip_with (zip_with (fun p dp => p - lr * dp)) (weight l) (weight d))
    (zip_with (fun p dp => p - lr * dp) (bias l) (bias d)).

Definition sgd_update (lr : R) (grads : Grads) (m : AutoEncoder) : AutoEncoder :=
  mkAutoEncoder
    (sgd_linear lr (g m) (d_g grads))
    (sgd_linear lr (hidden m) (d_hidden grads))
    (sgd_linear lr (h m) (d_h grads))
    (training m).

Definition wf_grads (num_question k : nat) (d : Grads) : Prop :=
  wf_linear num_question k (d_g d) /\
  wf_linear k k (d_hidden d) /\
  wf_linear k num_question (d_h d).

(** What [train] holds by reference: the module and the two matrices. *)
Record TrainEnv : Type := mkTrainEnv {
  tr_model : AutoEncoder;
  tr_train_data : list (list cell);
  tr_zero_train_data : list (list R)
}.

(** The local variables of [train] that live across epochs. *)
Record TrainLocals : Type := mkTrainLocals {
  optimizer : SGD;
  train_loss_lst : list R;
  valid_acc_lst : list R
}.

(** [model.train()] *)
Definition model_train : M TrainEnv unit :=
  modify (fun s => mkTrainEnv (set_training true (tr_model s))
                     (tr_train_data s) (tr_zero_train_data s)).

(** [optimizer.step()] *)
Definition optimizer_step (opt : SGD) (grads : Grads) : M TrainEnv unit :=
  modify (fun s => mkTrainEnv (sgd_update (sgd_lr opt) grads (tr_model s))
                     (tr_train_data s) (tr_zero_train_data s)).

(** [evaluate(model, zero_train_data, valid_data)] called from [train]. *)
Definition call_evaluate (valid_data : triples) : M TrainEnv R :=
  fun s =>
    let '(e, r) := evaluate valid_data
                     (mkEvalEnv (tr_model s) (tr_zero_train_data s)) in
    (mkTrainEnv (ev_model e) (tr_train_data s) (ev_train_data e), r).

(** [range(0, n)] *)
Definition range (n : Z) : list Z := map Z.of_nat (seq 0 (Z.to_nat n)).

Section Training.

(** [loss.backward()] after [optimizer.zero_grad()]: the gradient of the
    sample loss in every parameter, computed by torch's differentiation
    engine from the module, the input row, the mask and [lamb]. *)
Variable backward : AutoEncoder -> list R -> list bool -> R -> Grads.

(** The body of [for user_id in range(num_student)]. *)
Definition train_step (opt : SGD) (lamb : R) (user : nat) (train_loss : R)
  : M TrainEnv R :=
  (zero_train_data <- gets tr_zero_train_data ;;
   inputs <- lift (py_index zero_train_data (Z.of_nat user)) ;;
   let target := inputs in
   model <- gets tr_model ;;
   output <- lift (forward model inputs) ;;
   train_data <- gets tr_train_data ;;
   raw <- lift (py_index train_data (Z.of_nat user)) ;;
   let nan_mask := map isnan raw in
   target <- lift (index_put target output nan_mask) ;;
   loss <- lift (sample_loss lamb model output target) ;;
   let grads := backward model inputs nan_mask lamb in
   let train_loss := train_loss + loss in
   optimizer_step opt grads ;;
   ret train_loss)%monad.

Fixpoint user_loop (opt : SGD) (lamb : R) (users : list nat) (train_loss : R)
  : M TrainEnv R :=
  match users with
  | [] => ret train_loss
  | user :: users' =>
      (train_loss' <- train_step opt lamb user train_loss ;;
       user_loop opt lamb users' train_loss')%monad
  end.

(** One epoch run with the optimizer [opt]. *)
Definition run_epoch (opt : SGD) (lamb : R) (valid_data : triples)
    (num_student : nat) (loc : TrainLocals) : M TrainEnv TrainLocals :=
  (let train_loss := 0 in
   model_train ;;
   train_loss <- user_loop opt lamb (seq 0 num_student) train_loss ;;
   valid_acc <- call_evaluate valid_data ;;
   ret (mkTrainLocals opt
          (train_loss_lst loc ++ [train_loss])
          (valid_acc_lst loc ++ [valid_acc])))%monad.

(** The body of [for epoch in range(0, num_epoch)]:
    [if epoch >= 40: optimizer = optimizer_final]. *)
Definition epoch_body (optimizer_final : SGD) (lamb : R)
    (valid_data : triples) (num_student : nat) (epoch : Z)
    (loc : TrainLocals) : M TrainEnv TrainLocals :=
  let opt := if (epoch >=? 40)%Z then optimizer_final else optimizer loc in
  run_epoch opt lamb valid_data num_student loc.

Fixpoint epoch_loop (optimizer_final : SGD) (lamb : R)
    (valid_data : triples) (num_student : nat) (epochs : list Z)
    (loc : TrainLocals) : M TrainEnv TrainLocals :=
  match epochs with
  | [] => ret loc
  | epoch :: epochs' =>
      (loc' <- epoch_body optimizer_final lamb valid_data num_student
                 epoch loc ;;
       epoch_loop optimizer_final lamb valid_data num_student epochs' loc')%monad
  end.

(** [train]; its value here is the two series it hands to the plot, the
    validation accuracies and the training losses. *)
Definition train (lr lamb : R) (valid_data : triples) (num_epoch : Z)
  : M TrainEnv (list R * list R) :=
  (opt <- lift (SGD_init lr) ;;
   optimizer_final <- lift (SGD_init (lr * 0.5)) ;;
   train_data <- gets tr_train_data ;;
   let num_student := length train_data in
   loc <- epoch_loop optimizer_final lamb valid_data num_student
            (range num_epoch) (mkTrainLocals opt [] []) ;;
   final <- lift (py_index (valid_acc_lst loc) (-1)) ;;
   ret (valid_acc_lst loc, train_loss_lst loc))%monad.

End Training.

(** ** The specification's vocabulary *)

(** An affine transform [W x + b], entry by entry. *)
Definition dotR (w x : list R) : R := sum_list (zip_with Rmult w x).

Definition affine (l : Linear) (x : list R) : list R :=
  zip_with (fun row b => dotR row x + b) (weight l) (bias l).

(** Three affine transforms, each followed by the elementwise logistic
    sigmoid. *)
Definition three_sigmoid_layers (m : AutoEncoder) (x : list R) : list R :=
  map sigmoid (affine (h m)
    (map sigmoid (affine (hidden m)
      (map sigmoid (affine (g m) x))))).

(** Three affine transforms, each followed by the elementwise sigmoid in
    single precision. *)
Definition three_sigmoid32_layers (m : AutoEncoder) (x : list R) : list R :=
  map sigmoid32 (affine (h m)
    (map sigmoid32 (affine (hidden m)
      (map sigmoid32 (affine (g m) x))))).

(** The penalty over all three weight matrices. *)
Definition three_matrix_penalty (m : AutoEncoder) : R :=
  frobenius_sq (weight (g m)) + frobenius_sq (weight (hidden m)) +
  frobenius_sq (weight (h m)).

Definition all_zero (w : list (list R)) : Prop :=
  Forall (Forall (fun x => x = 0)) w.


(** [l] with position [j] replaced by [x]. *)
Fixpoint upd (l : list R) (j : nat) (x : R) : list R :=
  match l, j with
  | [], _ => []
  | _ :: l', O => x :: l'
  | y :: l', S j' => y :: upd l' j' x
  end.

(** The squared errors at the observed positions of a row. *)
Fixpoint observed_sq_err (output inputs : list R) (nan_mask : list bool) : R :=
  match output, inputs, nan_mask with
  | o :: output', t :: inputs', b :: nan_mask' =>
      (if b then 0 else (o - t) ^ 2) + observed_sq_err output' inputs' nan_mask'
  | _, _, _ => 0
  end.

(** The state [model.eval()] leaves. *)
Definition eval_mode (s : EvalEnv) : EvalEnv :=
  mkEvalEnv (set_training false (ev_model s)) (ev_train_data s).

(** An index a tensor of [n] entries accepts. *)
Definition valid_index (n : nat) (i : Z) : Prop :=
  (- Z.of_nat n <= i < Z.of_nat n)%Z.

(** A matrix of [rows] rows of [cols] entries. *)
Definition wf_matrix {A : Type} (rows cols : nat) (d : list (list A)) : Prop :=
  length d = rows /\ Forall (fun r => length r = cols) d.

(** Three parallel lists of one length whose users and questions exist. *)
Definition wf_triples (num_user num_question : nat) (vd : triples) : Prop :=
  length (question_id vd) = length (user_id vd) /\
  length (is_correct vd) = length (user_id vd) /\
  Forall (valid_index num_user) (user_id vd) /\
  Forall (valid_index num_question) (question_id vd).

(** The decision for one (user, question): reconstruct the user's row, read
    the entry of the question, compare it with 0.5. *)
Definition prediction (m : AutoEncoder) (data : list (list R)) (u q : Z)
  : result bool :=
  (inputs <- py_index data u ;;
   output <- forward m inputs ;;
   value <- py_index output q ;;
   Ok (Rge_bool value 0.5))%res.

Definition triple_correct (m : AutoEncoder) (data : list (list R))
    (t : Z * Z * Z) : bool :=
  let '(u, q, label) := t in
  match prediction m data u q with
  | Ok guess => py_bool_eq_int guess label
  | Raise _ => false
  end.

(** The number of triples whose prediction equals their label. *)
Definition correct_count (m : AutoEncoder) (data : list (list R))
    (vd : triples) : nat :=
  length (filter (triple_correct m data)
            (combine (combine (user_id vd) (question_id vd)) (is_correct vd))).

(** The loss of one training step as a function of the reconstruction: the
    target is built from the reconstruction, then compared with it. *)
Definition step_loss (lamb : R) (model : AutoEncoder) (inputs : list R)
    (nan_mask : list bool) (output : list R) : result R :=
  (target <- index_put inputs output nan_mask ;;
   sample_loss lamb model output target)%res.

(** The module and both matrices have the shapes of [num_user] users,
    [num_question] questions and [k] hidden units. *)
Definition wf_env (num_user num_question k : nat) (s : TrainEnv) : Prop :=
  wf_model num_question k (tr_model s) /\
  wf_matrix num_user num_question (tr_train_data s) /\
  wf_matrix num_user num_question (tr_zero_train_data s).

(** A gradient has the shape of the parameters it is the gradient of. *)
Definition shape_preserving (num_question k : nat)
    (backward : AutoEncoder -> list R -> list bool -> R -> Grads) : Prop :=
  forall m inputs nan_mask lamb,
    wf_model num_question k m ->
    length inputs = num_question ->
    length nan_mask = num_question ->
    wf_grads num_question k (backward m inputs nan_mask lamb).



(** ** The gradient by the chain rule

    An instance of [backward]: the gradient of
    [sum((out - target)^2) + lamb / 2 * get_weight_norm] through the three
    sigmoid layers, written out by hand. *)

Definition outer (d x : list R) : list (list R) :=
  map (fun di => map (fun xj => di * xj) x) d.

(** [W^T d] for a matrix of rows of [n] entries. *)
Fixpoint transpose_apply (w : list (list R)) (d : list R) (n : nat) : list R :=
  match w, d with
  | row :: w', di :: d' =>
      zip_with Rplus (map (Rmult di) row) (transpose_apply w' d' n)
  | _, _ => repeat 0 n
  end.

Definition through_sigmoid (d a : list R) : list R :=
  zip_with (fun di ai => di * (ai * (1 - ai))) d a.

Definition add_scaled (c : R) (a w : list (list R)) : list (list R) :=
  zip_with (zip_with (fun x y => x + c * y)) a w.

Definition backprop (m : AutoEncoder) (inputs : list R) (nan_mask : list bool)
    (lamb : R) : Grads :=
  let a1 := map sigmoid (affine (g m) inputs) in
  let a2 := map sigmoid (affine (hidden m) a1) in
  let out := map sigmoid (affine (h m) a2) in
  let d_out :=
    zip_with (fun (b : bool) (e : R) => if b then 0 else 2 * e) nan_mask
      (zip_with Rminus out inputs) in
  let delta3 := through_sigmoid d_out out in
  let delta2 :=
    through_sigmoid (transpose_apply (weight (h m)) delta3 (length a2)) a2 in
  let delta1 :=
    through_sigmoid (transpose_apply (weight (hidden m)) delta2 (length a1)) a1 in
  mkGrads
    (mkLinear (add_scaled lamb (outer delta1 inputs) (weight (g m))) delta1)
    (mkLinear (outer delta2 a1) delta2)
    (mkLinear (add_scaled lamb (outer delta3 a2) (weight (h m))) delta3).

(** ** [load_data] and [main] *)

(** [zero_train_matrix[np.isnan(train_matrix)] = 0] on one cell of the copy,
    read as a tensor entry. *)
Definition zero_fill_cell (c : cell) : R :=
  match c with
  | None => 0
  | Some v => v
  end.

(** [load_data]: the dense matrix and the two dictionaries come from the
    readers of [utils], which are its arguments here; the function adds the
    zero-filled copy and returns
    [(zero_train_matrix, train_matrix, valid_data, test_data)]. *)
Definition load_data (train_matrix : list (list cell))
    (valid_data test_data : triples)
  : list (list R) * list (list cell) * triples * triples :=
  let zero_train_matrix := map (map zero_fill_cell) train_matrix in
  (zero_train_matrix, train_matrix, valid_data, test_data).

(** [train_matrix.shape[1]] *)
Definition num_columns {A : Type} (m : list (list A)) : nat :=
  match m with
  | [] => 0%nat
  | row :: _ => length row
  end.

Section Main.

(** [loss.backward()], as in [train]. *)
Variable backward : AutoEncoder -> list R -> list bool -> R -> Grads.

(** [AutoEncoder(num_question, k)]: the module with the parameters torch's
    initialiser draws. *)
Variable new_model : nat -> nat -> AutoEncoder.

(** [main]; its value is the test accuracy it prints. *)
Definition main (train_matrix : list (list cell))
    (valid_data test_data : triples) : TrainEnv * result R :=
  let '(zero_train_matrix, train_matrix, valid_data, test_data) :=
    load_data train_matrix valid_data test_data in
  let k := 50%nat in
  let model := new_model (num_columns train_matrix) k in
  let lr := 0.015 in
  let num_epoch := 80%Z in
  let lamb := 0 in
  (train backward lr lamb valid_data num_epoch ;;
   call_evaluate test_data)%monad
    (mkTrainEnv model train_matrix zero_train_matrix).

End Main.

(** ** Further vocabulary *)

(** What the triple at position [j], whose user is [u], must offer to be
    scored: the user exists, and at that position there is a question that
    exists and a label. *)
Definition scorable (num_user num_question : nat) (vd : triples) (j : nat)
    (u : Z) : Prop :=
  valid_index num_user u /\
  (exists q, nth_error (question_id vd) j = Some q /\
             valid_index num_question q) /\
  (exists label, nth_error (is_correct vd) j = Some label).

(** The triple sets [evaluate] can score: every triple is scorable. *)
Definition usable_triples (num_user num_question : nat) (vd : triples) : Prop :=
  forall i u,
    nth_error (user_id vd) i = Some u -> scorable num_user num_question vd i u.

(** The triple set cut to the length of its user list. *)
Definition truncate_triples (vd : triples) : triples :=
  let n := length (user_id vd) in
  mkTriples (user_id vd) (firstn n (question_id vd)) (firstn n (is_correct vd)).

(** Every label [l] replaced by [1 - l]. *)
Definition flip_labels (vd : triples) : triples :=
  mkTriples (user_id vd) (question_id vd)
    (map (fun label => (1 - label)%Z) (is_correct vd)).

(** Every id written as a negative index, counted from the end. *)
Definition negative_ids (num_user num_question : nat) (vd : triples) : triples :=
  mkTriples (map (fun u => (u - Z.of_nat num_user)%Z) (user_id vd))
    (map (fun q => (q - Z.of_nat num_question)%Z) (question_id vd))
    (is_correct vd).

(** The squared errors of a reconstruction against the answers a raw row
    holds. *)
Fixpoint raw_sq_err (output : list R) (raw : list cell) : R :=
  match output, raw with
  | o :: output', c :: raw' =>
      match c with
      | Some v => (o - v) ^ 2
      | None => 0
      end + raw_sq_err output' raw'
  | _, _ => 0
  end.

(** The weights of the encoder and of the decoder agree. *)
Definition same_outer_weights (m m' : AutoEncoder) : Prop :=
  weight (g m') = weight (g m) /\ weight (h m') = weight (h m).

(** A computation that leaves both matrices as they were, whatever its
    outcome. *)
Definition keeps_matrices {A : Type} (c : M TrainEnv A) : Prop :=
  forall s,
    tr_train_data (fst (c s)) = tr_train_data s /\
    tr_zero_train_data (fst (c s)) = tr_zero_train_data s.

(** The triples of a triple set, one [(user, question, label)] per
    position. *)
Definition triple_list (vd : triples) : list (Z * Z * Z) :=
  combine (combine (user_id vd) (question_id vd)) (is_correct vd).

(** ** Concrete modules used in the examples *)

(** One question, [k = 1], every parameter zero but the hidden weight. *)
Definition hidden_only : AutoEncoder :=
  mkAutoEncoder (mkLinear [[0]] [0]) (mkLinear [[1]] [0]) (mkLinear [[0]] [0])
    true.

(** Two questions, [k = 2], the encoder and the decoder zero. *)
Definition hidden_only2 : AutoEncoder :=
  mkAutoEncoder
    (mkLinear [[0; 0]; [0; 0]] [0; 0])
    (mkLinear [[3; 0]; [0; -4]] [0; 0])
    (mkLinear [[0; 0]; [0; 0]] [0; 0])
    false.

(** One question, [k = 1], every parameter zero. *)
Definition zero_model : AutoEncoder :=
  mkAutoEncoder (mkLinear [[0]] [0]) (mkLinear [[0]] [0]) (mkLinear [[0]] [0])
    true.

(** One user who answered the one question correctly, and the validation
    triple that asks for that answer. *)
Definition one_user_env : TrainEnv :=
  mkTrainEnv zero_model [[Some 1]] [[1]].

Definition one_triple : triples := mkTriples [0%Z] [0%Z] [1%Z].

(** Two questions, [k = 1], every parameter zero; one user who answered the
    first question correctly and did not answer the second. *)
Definition two_question_model : AutoEncoder :=
  mkAutoEncoder (mkLinear [[0; 0]] [0]) (mkLinear [[0]] [0])
    (mkLinear [[0]; [0]] [0; 0]) true.

Definition two_question_env : TrainEnv :=
  mkTrainEnv two_question_model [[Some 1; None]] [[1; 0]].

(** One user who answered nothing. *)
Definition unanswered_env : TrainEnv :=
  mkTrainEnv zero_model [[None]] [[0]].

(** A module of any shape with every parameter zero, standing for a freshly
    built one. *)
Definition zeros_model (num_question k : nat) : AutoEncoder :=
  mkAutoEncoder
    (mkLinear (repeat (repeat 0 num_question) k) (repeat 0 k))
    (mkLinear (repeat (repeat 0 k) k) (repeat 0 k))
    (mkLinear (repeat (repeat 0 k) num_question) (repeat 0 num_question))
    true.

(** Two questions, [k = 1], every weight zero and the decoder biases 30 and
    -130: the reconstruction does not depend on the input. *)
Definition saturated_model : AutoEncoder :=
  mkAutoEncoder (mkLinear [[0; 0]] [0]) (mkLinear [[0]] [0])
    (mkLinear [[0]; [0]] [30; -130]) true.

(** * Properties *)

Ltac solve_wf :=
  unfold wf_model, wf_linear; simpl; repeat split; repeat constructor.


(** ** Results and the monad *)

Lemma bind_ok {S A B : Type} (c : M S A) (k : A -> M S B) (s s' : S) (a : A) :
  c s = (s', Ok a) -> bind c k s = k a s'.
Proof. intros E. unfold bind. now rewrite E. Qed.

Lemma bind_raise {S A B : Type} (c : M S A) (k : A -> M S B) (s s' : S) e :
  c s = (s', Raise e) -> bind c k s = (s', Raise e).
Proof. intros E. unfold bind. now rewrite E. Qed.

Lemma bind_inv_ok {S A B : Type} (c : M S A) (k : A -> M S B) (s s2 : S) (b : B) :
  bind c k s = (s2, Ok b) ->
  exists s1 a, c s = (s1, Ok a) /\ k a s1 = (s2, Ok b).
Proof.
  unfold bind. destruct (c s) as [s1 [a | e]]; intros E.
  - now exists s1, a.
  - discriminate.
Qed.

(** ** The weight norm *)

Lemma sum_sq_cons (x : R) (l : list R) : sum_sq (x :: l) = x ^ 2 + sum_sq l.
Proof. reflexivity. Qed.

Lemma frobenius_sq_cons (row : list R) (w : list (list R)) :
  frobenius_sq (row :: w) = sum_sq row + frobenius_sq w.
Proof. reflexivity. Qed.

Lemma sum_sq_nonneg (l : list R) : 0 <= sum_sq l.
Proof.
  induction l as [| x l IH].
  - unfold sum_sq, sum_list; simpl; lra.
  - rewrite sum_sq_cons. pose proof (pow2_ge_0 x). lra.
Qed.

Lemma frobenius_sq_nonneg (w : list (list R)) : 0 <= frobenius_sq w.
Proof.
  induction w as [| row w IH].
  - unfold frobenius_sq, sum_list; simpl; lra.
  - rewrite frobenius_sq_cons. pose proof (sum_sq_nonneg row). lra.
Qed.

Lemma norm2_sq (w : list (list R)) : norm2 w ^ 2 = frobenius_sq w.
Proof.
  unfold norm2. simpl. rewrite Rmult_1_r.
  apply sqrt_sqrt, frobenius_sq_nonneg.
Qed.

Lemma get_weight_norm_eq (m : AutoEncoder) :
  get_weight_norm m =
  frobenius_sq (weight (g m)) + frobenius_sq (weight (h m)).
Proof. unfold get_weight_norm. cbv zeta. now rewrite !norm2_sq. Qed.

Lemma sum_sq_zero (l : list R) : sum_sq l = 0 <-> Forall (fun x => x = 0) l.
Proof.
  induction l as [| x l IH].
  - split; [constructor | reflexivity].
  - rewrite sum_sq_cons.
    pose proof (sum_sq_nonneg l) as Hl. pose proof (pow2_ge_0 x) as Hx.
    split.
    + intros E. constructor.
      * assert (E2 : x ^ 2 = 0) by lra. simpl in E2. nra.
      * apply IH. lra.
    + intros F. inversion F as [| ? ? Hx0 Hl']; subst.
      apply IH in Hl'. rewrite Hl'. simpl. lra.
Qed.

Lemma frobenius_sq_zero (w : list (list R)) :
  frobenius_sq w = 0 <-> all_zero w.
Proof.
  unfold all_zero. induction w as [| row w IH].
  - split; [constructor | reflexivity].
  - rewrite frobenius_sq_cons.
    pose proof (sum_sq_nonneg row) as Hr.
    pose proof (frobenius_sq_nonneg w) as Hw. split.
    + intros E. constructor; [apply sum_sq_zero; lra | apply IH; lra].
    + intros F. inversion F as [| ? ? Hx Hl']; subst.
      apply sum_sq_zero in Hx. apply IH in Hl'. lra.
Qed.

Lemma get_weight_norm_nonneg (m : AutoEncoder) : 0 <= get_weight_norm m.
Proof.
  rewrite get_weight_norm_eq.
  pose proof (frobenius_sq_nonneg (weight (g m))).
  pose proof (frobenius_sq_nonneg (weight (h m))). lra.
Qed.

Lemma get_weight_norm_zero (m : AutoEncoder) :
  get_weight_norm m = 0 <->
  all_zero (weight (g m)) /\ all_zero (weight (h m)).
Proof.
  rewrite get_weight_norm_eq, <- !frobenius_sq_zero.
  pose proof (frobenius_sq_nonneg (weight (g m))).
  pose proof (frobenius_sq_nonneg (weight (h m))). lra.
Qed.

(** C1. [get_weight_norm] leaves the hidden layer out of its sum: on the
    module whose only non-zero parameter is the hidden weight [1] it returns
    [0], while the squared norms of the three weight matrices add up to [1]. *)
Example get_weight_norm_omits_hidden :
  get_weight_norm hidden_only = 0 /\ three_matrix_penalty hidden_only = 1.
Proof.
  split.
  - rewrite get_weight_norm_eq. unfold frobenius_sq, sum_sq, sum_list. simpl. lra.
  - unfold three_matrix_penalty, frobenius_sq, sum_sq, sum_list. simpl. lra.
Qed.

(** C6. [get_weight_norm] is zero on a module whose hidden weight matrix is
    not zero: it vanishes as soon as the encoder and decoder weights do. *)
Example get_weight_norm_zero_hidden_nonzero :
  get_weight_norm hidden_only2 = 0 /\
  ~ all_zero (weight (hidden hidden_only2)).
Proof.
  split.
  - apply get_weight_norm_zero. unfold all_zero. simpl.
    repeat constructor.
  - unfold all_zero. simpl. intros F.
    inversion F as [| ? ? Hrow _]; subst.
    inversion Hrow as [| ? ? H3 _]; subst. lra.
Qed.

(** ** The forward pass *)

Lemma sigmoid_range (x : R) : 0 < sigmoid x < 1.
Proof.
  unfold sigmoid. pose proof (exp_pos (- x)) as He.
  assert (Hd : 0 < 1 + exp (- x)) by lra.
  split.
  - apply Rdiv_lt_0_compat; lra.
  - apply (Rmult_lt_reg_r (1 + exp (- x))); [exact Hd |].
    unfold Rdiv. rewrite Rmult_assoc, Rinv_l by lra. lra.
Qed.

Lemma sigmoid_0 : sigmoid 0 = 0.5.
Proof. unfold sigmoid. rewrite Ropp_0, exp_0. lra. Qed.

Lemma dot_ok (w x : list R) :
  length w = length x -> dot w x = Ok (dotR w x).
Proof.
  revert x. induction w as [| wi w IH]; intros [| xi x] L; simpl in L;
    try discriminate.
  - reflexivity.
  - simpl. rewrite IH by lia. reflexivity.
Qed.

Lemma zip_with_length {A B C : Type} (f : A -> B -> C) (a : list A) (b : list B) :
  length a = length b -> length (zip_with f a b) = length a.
Proof.
  revert b. induction a as [| x a IH]; intros [| y b] L; simpl in *;
    try discriminate; auto.
Qed.

Lemma apply_linear_ok (n_in n_out : nat) (l : Linear) (x : list R) :
  wf_linear n_in n_out l -> length x = n_in ->
  apply_linear l x = Ok (affine l x) /\ length (affine l x) = n_out.
Proof.
  intros (Hw & Hrows & Hb) Hx. unfold apply_linear, affine.
  destruct l as [w b]; simpl in *. subst n_out.
  revert b Hb. induction Hrows as [| row w Hrow Hrows IH]; intros [| bj b] Hb;
    simpl in Hb; try discriminate.
  - split; reflexivity.
  - destruct (IH b) as [E L]; [lia |].
    simpl. rewrite dot_ok by congruence. simpl. rewrite E. simpl.
    split; [reflexivity | now rewrite L].
Qed.

Lemma forward_ok (num_question k : nat) (m : AutoEncoder) (x : list R) :
  wf_model num_question k m -> length x = num_question ->
  forward m x = Ok (three_sigmoid_layers m x) /\
  length (three_sigmoid_layers m x) = num_question.
Proof.
  intros (Hg & Hhid & Hh) Hx. unfold forward, three_sigmoid_layers.
  destruct (apply_linear_ok _ _ _ x Hg Hx) as [E1 L1].
  cbv zeta. rewrite E1. simpl.
  destruct (apply_linear_ok _ _ _ (map sigmoid (affine (g m) x)) Hhid) as [E2 L2].
  { now rewrite length_map. }
  rewrite E2. simpl.
  destruct (apply_linear_ok _ _ _
              (map sigmoid (affine (hidden m) (map sigmoid (affine (g m) x)))) Hh)
    as [E3 L3].
  { now rewrite length_map. }
  rewrite E3. simpl. split; [reflexivity | now rewrite length_map].
Qed.

(** ** Rounding to binary32 *)

Lemma ln2_pos : 0 < ln 2.
Proof. rewrite <- ln_1. apply ln_increasing; lra. Qed.

Lemma ln2_lt_1 : ln 2 < 1.
Proof.
  rewrite <- (ln_exp 1). apply ln_increasing; [lra |].
  pose proof (exp_ineq1 1). lra.
Qed.

Lemma exp_le (x y : R) : x <= y -> exp x <= exp y.
Proof.
  intros [H | ->]; [left; now apply exp_increasing | right; reflexivity].
Qed.

Lemma bpow_pos (z : Z) : 0 < bpow z.
Proof. apply exp_pos. Qed.

Lemma bpow_add (a b : Z) : bpow (a + b) = bpow a * bpow b.
Proof. unfold bpow. rewrite plus_IZR, Rmult_plus_distr_r. apply exp_plus. Qed.

Lemma bpow_0 : bpow 0 = 1.
Proof. unfold bpow. rewrite Rmult_0_l. apply exp_0. Qed.

Lemma bpow_1 : bpow 1 = 2.
Proof. unfold bpow. rewrite Rmult_1_l. apply exp_ln. lra. Qed.

Lemma bpow_le (a b : Z) : (a <= b)%Z -> bpow a <= bpow b.
Proof.
  intros H. unfold bpow. apply exp_le. apply IZR_le in H.
  pose proof ln2_pos. nra.
Qed.

Lemma bpow_nat (n : nat) : bpow (Z.of_nat n) = IZR (2 ^ Z.of_nat n).
Proof.
  induction n as [| n IH].
  - simpl. apply bpow_0.
  - rewrite Nat2Z.inj_succ, <- Z.add_1_r, bpow_add, IH, bpow_1.
    rewrite Z.pow_add_r by lia. rewrite mult_IZR. simpl. reflexivity.
Qed.

Lemma bpow_int (z : Z) : (0 <= z)%Z -> bpow z = IZR (2 ^ z).
Proof. intros H. rewrite <- (Z2Nat.id z H). apply bpow_nat. Qed.

Lemma Int_part_spec (x : R) : IZR (Int_part x) <= x < IZR (Int_part x) + 1.
Proof. pose proof (base_Int_part x). lra. Qed.

Lemma Int_part_ge (x : R) (n : Z) : IZR n <= x -> (n <= Int_part x)%Z.
Proof.
  intros H. pose proof (Int_part_spec x) as [_ Hu].
  assert (IZR n < IZR (Int_part x + 1)) by (rewrite plus_IZR; lra).
  apply lt_IZR in H0. lia.
Qed.

Lemma Int_part_lt (x : R) (n : Z) : x < IZR n -> (Int_part x < n)%Z.
Proof.
  intros H. pose proof (Int_part_spec x) as [Hl _].
  apply lt_IZR. lra.
Qed.

Lemma Znearest_even_cases (x : R) :
  Znearest_even x = Int_part x \/
  (Znearest_even x = (Int_part x + 1)%Z /\ 1 / 2 <= x - IZR (Int_part x)).
Proof.
  unfold Znearest_even. cbv zeta.
  destruct (Rlt_dec (x - IZR (Int_part x)) (1 / 2)) as [H | H]; [now left |].
  destruct (Rlt_dec (1 / 2) (x - IZR (Int_part x))) as [H' | H'].
  - right. split; [reflexivity | lra].
  - destruct (Z.even (Int_part x)); [now left | right; split; [reflexivity | lra]].
Qed.

Lemma Znearest_even_ge (x : R) (n : Z) :
  IZR n <= x -> (n <= Znearest_even x)%Z.
Proof.
  intros H. apply Int_part_ge in H.
  destruct (Znearest_even_cases x) as [-> | [-> _]]; lia.
Qed.

Lemma Znearest_even_le (x : R) (n : Z) :
  x <= IZR n -> (Znearest_even x <= n)%Z.
Proof.
  intros H. pose proof (Int_part_spec x) as [Hl _].
  destruct (Znearest_even_cases x) as [-> | [-> Hd]].
  - apply le_IZR. lra.
  - assert (IZR (Int_part x) < IZR n) by lra. apply lt_IZR in H0. lia.
Qed.

Lemma Znearest_even_below_half (x : R) (n : Z) :
  IZR n <= x < IZR n + 1 / 2 -> Znearest_even x = n.
Proof.
  intros [Hl Hu].
  assert (E : Int_part x = n).
  { pose proof (Int_part_ge x n Hl).
    assert (Int_part x < n + 1)%Z by (apply Int_part_lt; rewrite plus_IZR; lra).
    lia. }
  unfold Znearest_even. cbv zeta. rewrite E.
  destruct (Rlt_dec (x - IZR n) (1 / 2)); [reflexivity | lra].
Qed.

Lemma mag2_ge (y : R) (k : Z) : bpow k <= y -> (k <= mag2 y)%Z.
Proof.
  intros H. pose proof (bpow_pos k). pose proof ln2_pos as H2.
  unfold mag2. apply Int_part_ge. rewrite Rabs_pos_eq by lra.
  apply Rmult_le_reg_r with (ln 2); [exact H2 |].
  unfold Rdiv. rewrite Rmult_assoc, Rinv_l, Rmult_1_r by lra.
  destruct H as [H | <-].
  - left. rewrite <- (ln_exp (IZR k * ln 2)). apply ln_increasing; [apply exp_pos | exact H].
  - right. unfold bpow. now rewrite ln_exp.
Qed.

Lemma mag2_lt (y : R) (k : Z) : 0 < y < bpow k -> (mag2 y < k)%Z.
Proof.
  intros [Hp H]. pose proof ln2_pos as H2.
  unfold mag2. apply Int_part_lt. rewrite Rabs_pos_eq by lra.
  apply Rmult_lt_reg_r with (ln 2); [exact H2 |].
  unfold Rdiv. rewrite Rmult_assoc, Rinv_l, Rmult_1_r by lra.
  rewrite <- (ln_exp (IZR k * ln 2)). apply ln_increasing; [exact Hp | exact H].
Qed.

Lemma mag2_bound (y : R) : 0 < y -> bpow (mag2 y) <= y.
Proof.
  intros Hp. pose proof ln2_pos as H2. unfold bpow, mag2.
  rewrite Rabs_pos_eq by lra.
  pose proof (Int_part_spec (ln y / ln 2)) as [Hl _].
  rewrite <- (exp_ln y Hp) at 2. apply exp_le.
  apply Rmult_le_compat_r with (r := ln 2) in Hl; [| lra].
  unfold Rdiv in Hl. rewrite Rmult_assoc, Rinv_l, Rmult_1_r in Hl by lra.
  exact Hl.
Qed.

Lemma mag2_le_0 (y : R) : 0 <= y <= 1 -> (mag2 y <= 0)%Z.
Proof.
  intros [H0 H1]. pose proof ln2_pos as H2. unfold mag2.
  rewrite Rabs_pos_eq by lra.
  assert (Hln : ln y <= 0).
  { destruct H0 as [Hp | <-].
    - destruct H1 as [H1 | ->]; [| rewrite ln_1; lra].
      pose proof (ln_increasing y 1 Hp H1) as Hi. rewrite ln_1 in Hi. lra.
    - unfold ln. destruct (Rlt_dec 0 0) as [Hc | Hc];
        [exact (False_ind _ (Rlt_irrefl 0 Hc)) | apply Rle_refl]. }
  assert (Int_part (ln y / ln 2) < 1)%Z; [| lia].
  apply Int_part_lt.
  apply Rmult_lt_reg_r with (ln 2); [exact H2 |].
  unfold Rdiv. rewrite Rmult_assoc, Rinv_l, Rmult_1_r by lra. lra.
Qed.

Lemma ulp32_pos (x : R) : 0 < ulp32 x.
Proof. apply bpow_pos. Qed.

Lemma rn32_nonneg (y : R) : 0 <= y -> 0 <= rn32 y.
Proof.
  intros H. unfold rn32. pose proof (ulp32_pos y) as Hu.
  apply Rmult_le_pos; [| lra]. apply IZR_le.
  apply Znearest_even_ge. simpl. apply Rmult_le_pos; [exact H |].
  left. now apply Rinv_0_lt_compat.
Qed.

Lemma mag2_0 : mag2 0 = 0%Z.
Proof.
  pose proof (mag2_le_0 0 ltac:(lra)).
  assert (0 <= mag2 0)%Z; [| lia].
  unfold mag2. apply Int_part_ge. rewrite Rabs_R0. unfold ln.
  destruct (Rlt_dec 0 0) as [Hc | Hc]; [exact (False_ind _ (Rlt_irrefl 0 Hc)) |].
  unfold Rdiv. rewrite Rmult_0_l. simpl. apply Rle_refl.
Qed.

Lemma rn32_0 : rn32 0 = 0.
Proof.
  unfold rn32. unfold Rdiv. rewrite Rmult_0_l.
  rewrite (Znearest_even_below_half 0 0) by (simpl; lra). simpl. ring.
Qed.

(** Rounding to nearest does not cross a power of two. *)
Lemma rn32_le_bpow (y : R) (k : Z) :
  (-126 <= k)%Z -> 0 <= y <= bpow k -> rn32 y <= bpow k.
Proof.
  intros Hk [H0 H1]. destruct H0 as [Hp | <-].
  2: { rewrite rn32_0. left. apply bpow_pos. }
  unfold rn32, ulp32. set (e := Z.max (mag2 y) (-126)).
  assert (He : (e <= k + 1)%Z).
  { assert (mag2 y < k + 1)%Z; [| unfold e; lia].
    apply mag2_lt. split; [exact Hp |].
    rewrite bpow_add, bpow_1. pose proof (bpow_pos k). lra. }
  assert (Hu : 0 < bpow (e - 23)) by apply bpow_pos.
  assert (Hq : bpow k = IZR (2 ^ (k - (e - 23))) * bpow (e - 23)).
  { rewrite <- bpow_int by lia. rewrite <- bpow_add. f_equal. lia. }
  rewrite Hq. apply Rmult_le_compat_r; [lra |]. apply IZR_le.
  apply Znearest_even_le. rewrite <- bpow_int by lia.
  apply Rmult_le_reg_r with (bpow (e - 23)); [exact Hu |].
  unfold Rdiv. rewrite Rmult_assoc, Rinv_l, Rmult_1_r by lra.
  rewrite <- bpow_add. replace (k - (e - 23) + (e - 23))%Z with k by lia.
  exact H1.
Qed.

Lemma rn32_ge_bpow (y : R) (k : Z) :
  (-126 <= k)%Z -> bpow k <= y -> bpow k <= rn32 y.
Proof.
  intros Hk H. pose proof (bpow_pos k) as Hkp.
  pose proof (mag2_ge y k H) as Hm. pose proof (mag2_bound y ltac:(lra)) as Hb.
  unfold rn32, ulp32. replace (Z.max (mag2 y) (-126)) with (mag2 y) by lia.
  set (m := mag2 y) in *.
  assert (Hu : 0 < bpow (m - 23)) by apply bpow_pos.
  apply Rle_trans with (bpow m); [now apply bpow_le |].
  assert (Hq : bpow m = IZR (2 ^ 23) * bpow (m - 23)).
  { rewrite <- bpow_int by lia. rewrite <- bpow_add. f_equal. lia. }
  rewrite Hq at 1. apply Rmult_le_compat_r; [lra |]. apply IZR_le.
  apply Znearest_even_ge. rewrite <- bpow_int by lia.
  apply Rmult_le_reg_r with (bpow (m - 23)); [exact Hu |].
  unfold Rdiv. rewrite Rmult_assoc, Rinv_l, Rmult_1_r by lra.
  rewrite <- bpow_add. replace (23 + (m - 23))%Z with m by lia. exact Hb.
Qed.

Lemma rn32_1 : rn32 1 = 1.
Proof.
  pose proof (rn32_le_bpow 1 0 ltac:(lia)) as Hu.
  pose proof (rn32_ge_bpow 1 0 ltac:(lia)) as Hl.
  rewrite bpow_0 in *. lra.
Qed.

(** Below [1 + 2^-25] the sum [1 + t] rounds to 1. *)
Lemma rn32_one_plus (t : R) : 0 <= t <= bpow (-25) -> rn32 (1 + t) = 1.
Proof.
  intros [H0 H1].
  assert (Hb : bpow (-25) * bpow 23 = 1 / 4).
  { rewrite <- bpow_add. replace (-25 + 23)%Z with (-2)%Z by lia.
    assert (bpow (-2) * bpow 2 = 1) by (rewrite <- bpow_add; apply bpow_0).
    rewrite (bpow_int 2) in H by lia. simpl in H. lra. }
  assert (Hm : mag2 (1 + t) = 0%Z).
  { pose proof (mag2_ge (1 + t) 0 ltac:(rewrite bpow_0; lra)).
    assert (mag2 (1 + t) < 1)%Z; [| lia].
    apply mag2_lt. rewrite bpow_1. split; [lra |].
    pose proof (bpow_pos 23). pose proof (bpow_int 23 ltac:(lia)) as E.
    simpl in E. nra. }
  unfold rn32, ulp32. rewrite Hm. replace (Z.max 0 (-126) - 23)%Z with (-23)%Z by lia.
  assert (Hinv : / bpow (-23) = bpow 23).
  { assert (Hprod : bpow (-23) * bpow 23 = 1)
      by (rewrite <- bpow_add; apply bpow_0).
    pose proof (bpow_pos (-23)) as Hp.
    apply Rmult_eq_reg_l with (bpow (-23)); [| lra].
    rewrite Rinv_r by lra. lra. }
  rewrite (Znearest_even_below_half _ (2 ^ 23)).
  - rewrite <- bpow_int by lia. rewrite <- bpow_add. apply bpow_0.
  - unfold Rdiv. rewrite Hinv. rewrite <- bpow_int by lia.
    pose proof (bpow_pos 23). nra.
Qed.

Lemma fl32_small (y : R) (k : Z) :
  (-126 <= k <= 127)%Z -> 0 <= y <= bpow k ->
  exists t, fl32 y = Some t /\ 0 <= t <= bpow k.
Proof.
  intros Hk Hy. pose proof (rn32_nonneg y (proj1 Hy)) as Hn.
  pose proof (rn32_le_bpow y k ltac:(lia) Hy) as Hu.
  exists (rn32 y). split; [| lra]. unfold fl32. cbv zeta.
  destruct (Rlt_dec (Rabs (rn32 y)) (bpow 128)) as [_ | Hno]; [reflexivity |].
  exfalso. apply Hno. rewrite Rabs_pos_eq by lra.
  assert (bpow k < bpow 128); [| lra].
  unfold bpow. apply exp_increasing.
  assert (IZR k < IZR 128) by (apply IZR_lt; lia). pose proof ln2_pos. nra.
Qed.

Lemma fl32_overflow (y : R) : bpow 128 <= y -> fl32 y = None.
Proof.
  intros H. pose proof (rn32_ge_bpow y 128 ltac:(lia) H) as Hr.
  unfold fl32. cbv zeta. pose proof (bpow_pos 128).
  destruct (Rlt_dec (Rabs (rn32 y)) (bpow 128)) as [Hlt |]; [| reflexivity].
  rewrite Rabs_pos_eq in Hlt by lra. lra.
Qed.

(** The three roundings keep the value in the closed unit interval. *)
Lemma sigmoid32_range (x : R) : 0 <= sigmoid32 x <= 1.
Proof.
  unfold sigmoid32. destruct (fl32 (exp (- x))) as [t |] eqn:E; [| lra].
  unfold fl32 in E. cbv zeta in E.
  destruct (Rlt_dec _ _); [| discriminate]. inversion E; subst t. clear E.
  pose proof (exp_pos (- x)) as He.
  pose proof (rn32_nonneg (exp (- x)) ltac:(lra)) as Ht.
  pose proof (rn32_ge_bpow (1 + rn32 (exp (- x))) 0 ltac:(lia)) as Hd.
  rewrite bpow_0 in Hd. specialize (Hd ltac:(lra)).
  set (d := rn32 (1 + rn32 (exp (- x)))) in *.
  assert (Hq : 0 <= 1 / d <= 1).
  { split.
    - left. apply Rdiv_lt_0_compat; lra.
    - apply Rmult_le_reg_r with d; [lra |].
      unfold Rdiv. rewrite Rmult_assoc, Rinv_l by lra. lra. }
  split; [apply rn32_nonneg; lra |].
  pose proof (rn32_le_bpow (1 / d) 0 ltac:(lia)) as Hu.
  rewrite bpow_0 in Hu. now apply Hu.
Qed.

(** From a pre-activation of 25 on the result is exactly 1. *)
Lemma sigmoid32_high (x : R) : 25 <= x -> sigmoid32 x = 1.
Proof.
  intros Hx. pose proof ln2_lt_1 as H2. pose proof ln2_pos as H2'.
  assert (Hy : 0 <= exp (- x) <= bpow (-25)).
  { split; [left; apply exp_pos |]. unfold bpow. apply exp_le.
    change (IZR (-25)) with (-25). nra. }
  destruct (fl32_small _ (-25) ltac:(lia) Hy) as (t & E & Ht).
  unfold sigmoid32. rewrite E. rewrite rn32_one_plus by exact Ht.
  replace (1 / 1) with 1 by lra. apply rn32_1.
Qed.

(** Up to a pre-activation of -128 the exponential overflows and the result
    is exactly 0. *)
Lemma sigmoid32_low (x : R) : x <= -128 -> sigmoid32 x = 0.
Proof.
  intros Hx. pose proof ln2_lt_1 as H2. pose proof ln2_pos as H2'.
  unfold sigmoid32. rewrite fl32_overflow; [reflexivity |].
  unfold bpow. apply exp_le. change (IZR 128) with 128. nra.
Qed.

Lemma forward32_ok (num_question k : nat) (m : AutoEncoder) (x : list R) :
  wf_model num_question k m -> length x = num_question ->
  forward32 m x = Ok (three_sigmoid32_layers m x) /\
  length (three_sigmoid32_layers m x) = num_question.
Proof.
  intros (Hg & Hhid & Hh) Hx. unfold forward32, three_sigmoid32_layers.
  destruct (apply_linear_ok _ _ _ x Hg Hx) as [E1 L1].
  cbv zeta. rewrite E1. simpl.
  destruct (apply_linear_ok _ _ _ (map sigmoid32 (affine (g m) x)) Hhid)
    as [E2 L2].
  { now rewrite length_map. }
  rewrite E2. simpl.
  destruct (apply_linear_ok _ _ _
              (map sigmoid32
                 (affine (hidden m) (map sigmoid32 (affine (g m) x)))) Hh)
    as [E3 L3].
  { now rewrite length_map. }
  rewrite E3. simpl. split; [reflexivity | now rewrite length_map].
Qed.

(** C3, as amended.  On a module built as [AutoEncoder(num_question, k)] and
    an input of [num_question] entries, the forward pass with its sigmoids
    in single precision returns a vector of [num_question] entries, each in
    the closed interval from 0 to 1, which is the result of three affine
    transforms each followed by the elementwise sigmoid. *)
Theorem forward32_unit_interval (num_question k : nat) (m : AutoEncoder)
    (inputs : list R) :
  wf_model num_question k m ->
  length inputs = num_question ->
  exists out,
    forward32 m inputs = Ok out /\
    length out = num_question /\
    Forall (fun v => 0 <= v <= 1) out /\
    out = three_sigmoid32_layers m inputs.
Proof.
  intros Hm Hx. destruct (forward32_ok _ _ _ _ Hm Hx) as [E L].
  exists (three_sigmoid32_layers m inputs). repeat split; auto.
  unfold three_sigmoid32_layers. apply Forall_map, Forall_forall.
  intros v _. apply sigmoid32_range.
Qed.

Lemma forward32_unit_interval_witness :
  wf_model 2 1 saturated_model /\ length [1; 0] = 2%nat /\
  exists out,
    forward32 saturated_model [1; 0] = Ok out /\
    length out = 2%nat /\
    Forall (fun v => 0 <= v <= 1) out /\
    out = three_sigmoid32_layers saturated_model [1; 0].
Proof.
  split; [solve_wf | split; [reflexivity |]].
  apply (forward32_unit_interval 2 1 saturated_model [1; 0]);
    [solve_wf | reflexivity].
Defined.

(** C3, as stated, fails: on the module whose decoder biases are 30 and -130
    the forward pass returns exactly 1 and exactly 0, neither of which lies
    strictly between 0 and 1. *)
Lemma forward32_saturates :
  wf_model 2 1 saturated_model /\ length [1; 0] = 2%nat /\
  forward32 saturated_model [1; 0] = Ok [1; 0] /\
  ~ Forall (fun v => 0 < v < 1) [1; 0].
Proof.
  split; [solve_wf | split; [reflexivity |]]. split.
  - unfold forward32, apply_linear. simpl. do 2 f_equal.
    + apply sigmoid32_high. lra.
    + f_equal. apply sigmoid32_low. lra.
  - intros F. inversion F as [| ? ? H1 _]; subst. lra.
Qed.

(** ** The evaluator *)

Lemma forward_set_training (b : bool) (m : AutoEncoder) (x : list R) :
  forward (set_training b m) x = forward m x.
Proof. reflexivity. Qed.

(** The loop of [evaluate] only reads the module and the matrix. *)
Lemma evaluate_body_frame (vd : triples) (i : nat) (u : Z) (c : nat * nat)
    (s : EvalEnv) :
  fst (evaluate_body vd i u c s) = s.
Proof.
  unfold evaluate_body. destruct c as [correct total].
  unfold bind, gets, lift, ret.
  destruct (py_index (ev_train_data s) u); [| reflexivity].
  destruct (forward (ev_model s) a); [| reflexivity].
  destruct (list_get (question_id vd) i); [| reflexivity].
  destruct (py_index a0 a1); [| reflexivity].
  destruct (list_get (is_correct vd) i); reflexivity.
Qed.

Lemma evaluate_loop_frame (vd : triples) (users : list Z) :
  forall (i : nat) (c : nat * nat) (s : EvalEnv),
    fst (evaluate_loop vd i users c s) = s.
Proof.
  induction users as [| u users IH]; intros i c s; simpl.
  - reflexivity.
  - unfold bind. pose proof (evaluate_body_frame vd i u c s) as F.
    destruct (evaluate_body vd i u c s) as [s' [c' | e]]; simpl in F; subst s'.
    + apply IH.
    + reflexivity.
Qed.

Lemma evaluate_unfold (vd : triples) (s : EvalEnv) :
  evaluate vd s =
  (eval_mode s,
   match snd (evaluate_loop vd 0 (user_id vd) (0%nat, 0%nat) (eval_mode s)) with
   | Ok counters => py_div (fst counters) (snd counters)
   | Raise e => Raise e
   end).
Proof.
  unfold evaluate, bind, model_eval, modify, lift. fold (eval_mode s).
  pose proof (evaluate_loop_frame vd (user_id vd) 0 (0%nat, 0%nat) (eval_mode s)) as F.
  destruct (evaluate_loop vd 0 (user_id vd) (0%nat, 0%nat) (eval_mode s))
    as [s' [c | e]]; simpl in *; now subst s'.
Qed.

Lemma eval_mode_idem (s : EvalEnv) : eval_mode (eval_mode s) = eval_mode s.
Proof. reflexivity. Qed.

(** C10. [evaluate] leaves the weights and biases of the three layers and the
    input matrix as they were; of the module only the mode flag changes, to
    evaluation mode. *)
Theorem evaluate_frame (valid_data : triples) (s : EvalEnv) :
  let s' := fst (evaluate valid_data s) in
  same_parameters (ev_model s) (ev_model s') /\
  ev_train_data s' = ev_train_data s /\
  training (ev_model s') = false.
Proof.
  rewrite evaluate_unfold. simpl. unfold same_parameters. simpl. auto.
Qed.

(** C8. A second call of [evaluate] on the same module, matrix and triples
    returns what the first call returned (the same accuracy, or the same
    exception). *)
Theorem evaluate_deterministic (valid_data : triples) (s : EvalEnv) :
  let (s1, r1) := evaluate valid_data s in
  let (s2, r2) := evaluate valid_data s1 in
  r1 = r2 /\ s2 = s1.
Proof.
  rewrite evaluate_unfold.
  rewrite evaluate_unfold. rewrite eval_mode_idem. split; reflexivity.
Qed.

Lemma py_index_ok {A : Type} (t : list A) (i : Z) :
  valid_index (length t) i -> exists a, py_index t i = Ok a /\ In a t.
Proof.
  unfold valid_index, py_index. intros Hi. cbv zeta.
  set (n := Z.of_nat (length t)) in *.
  set (j := if (i <? 0)%Z then (n + i)%Z else i).
  assert (Hj : (0 <= j < n)%Z).
  { unfold j. destruct (Z.ltb_spec i 0); lia. }
  replace ((0 <=? j)%Z && (j <? n)%Z)%bool with true
    by (symmetry; apply andb_true_iff; split;
        [apply Z.leb_le | apply Z.ltb_lt]; lia).
  destruct (nth_error t (Z.to_nat j)) as [a |] eqn:E.
  - exists a. split; [reflexivity | eapply nth_error_In; eauto].
  - apply nth_error_None in E. unfold n in Hj. lia.
Qed.

Lemma skipn_cons_get {A : Type} (l : list A) (i : nat) (a : A) (r : list A) :
  skipn i l = a :: r -> list_get l i = Ok a /\ skipn (S i) l = r.
Proof.
  revert l. induction i as [| i IH]; intros [| x l] E; simpl in E;
    try discriminate.
  - inversion E; subst. split; reflexivity.
  - destruct (IH l E) as [G Sk]. split; [exact G | exact Sk].
Qed.

Lemma evaluate_body_ok (vd : triples) (i : nat) (u q label : Z)
    (correct total : nat) (s : EvalEnv) (row output : list R) (value : R) :
  py_index (ev_train_data s) u = Ok row ->
  forward (ev_model s) row = Ok output ->
  list_get (question_id vd) i = Ok q ->
  py_index output q = Ok value ->
  list_get (is_correct vd) i = Ok label ->
  evaluate_body vd i u (correct, total) s =
  (s, Ok (if py_bool_eq_int (Rge_bool value 0.5) label
          then S correct else correct, S total)).
Proof.
  intros E1 E2 E3 E4 E5. unfold evaluate_body, bind, gets, lift, ret.
  now rewrite E1, E2, E3, E4, E5.
Qed.

Lemma Rge_bool_true (x y : R) : Rge_bool x y = true <-> y <= x.
Proof.
  unfold Rge_bool. destruct (Rge_dec x y) as [G | G]; split; intros H';
    try reflexivity; try discriminate; lra.
Qed.

(** C5. For the triple at position [i], the evaluator reconstructs the row of
    the triple's user, reads the entry at the triple's question, and guesses
    "correct" exactly when that entry is at least 0.5; an entry equal to 0.5
    is guessed correct.  The guess is then compared with the label. *)
Theorem evaluate_decision_rule (vd : triples) (i : nat) (u q label : Z)
    (correct total : nat) (s : EvalEnv) (row output : list R) (value : R) :
  py_index (ev_train_data s) u = Ok row ->
  forward (ev_model s) row = Ok output ->
  list_get (question_id vd) i = Ok q ->
  py_index output q = Ok value ->
  list_get (is_correct vd) i = Ok label ->
  exists guess : bool,
    evaluate_body vd i u (correct, total) s =
      (s, Ok (if py_bool_eq_int guess label then S correct else correct,
              S total)) /\
    (guess = true <-> 0.5 <= value) /\
    (value = 0.5 -> guess = true).
Proof.
  intros E1 E2 E3 E4 E5. exists (Rge_bool value 0.5). split; [| split].
  - eapply evaluate_body_ok; eauto.
  - apply Rge_bool_true.
  - intros ->. apply Rge_bool_true. lra.
Qed.

Lemma forward_zero_model : forward zero_model [0] = Ok [0.5].
Proof.
  unfold forward, apply_linear. simpl. do 2 f_equal.
  rewrite <- sigmoid_0. f_equal. ring.
Qed.

Lemma evaluate_decision_rule_witness :
  let vd := mkTriples [0%Z] [0%Z] [1%Z] in
  let s := mkEvalEnv zero_model [[0]] in
  exists guess : bool,
    evaluate_body vd 0 0 (0%nat, 0%nat) s =
      (s, Ok (if py_bool_eq_int guess 1 then 1%nat else 0%nat, 1%nat)) /\
    (guess = true <-> 0.5 <= 0.5) /\
    (0.5 = 0.5 -> guess = true).
Proof.
  intros vd s.
  apply (evaluate_decision_rule vd 0 0 0 1 0 0 s [0] [0.5] 0.5);
    [reflexivity | exact forward_zero_model | reflexivity | reflexivity
     | reflexivity].
Defined.

Lemma triple_correct_ok (m : AutoEncoder) (data : list (list R)) (u q label : Z)
    (row output : list R) (value : R) :
  py_index data u = Ok row ->
  forward m row = Ok output ->
  py_index output q = Ok value ->
  triple_correct m data (u, q, label) =
  py_bool_eq_int (Rge_bool value 0.5) label.
Proof.
  intros E1 E2 E3. unfold triple_correct, prediction. rewrite E1. simpl.
  rewrite E2. simpl. rewrite E3. reflexivity.
Qed.

Section EvaluateLoop.

Variables num_user num_question k : nat.
Variable vd : triples.
Variable s : EvalEnv.
Hypothesis Hmodel : wf_model num_question k (ev_model s).
Hypothesis Hdata : wf_matrix num_user num_question (ev_train_data s).

Lemma evaluate_loop_ok (users : list Z) :
  forall (qs ls : list Z) (i correct total : nat),
    skipn i (question_id vd) = qs ->
    skipn i (is_correct vd) = ls ->
    length qs = length users ->
    length ls = length users ->
    Forall (valid_index num_user) users ->
    Forall (valid_index num_question) qs ->
    evaluate_loop vd i users (correct, total) s =
    (s, Ok ((correct +
             length (filter (triple_correct (ev_model s) (ev_train_data s))
                       (combine (combine users qs) ls)))%nat,
            (total + length users)%nat)).
Proof.
  induction users as [| u users IH];
    intros qs ls i correct total Eq El Lq Ll Vu Vq.
  - simpl. unfold ret. now rewrite !Nat.add_0_r.
  - destruct qs as [| q qs]; [discriminate |].
    destruct ls as [| label ls]; [discriminate |].
    apply skipn_cons_get in Eq. destruct Eq as [Gq Eq].
    apply skipn_cons_get in El. destruct El as [Gl El].
    inversion Vu as [| ? ? Hu Vu']; subst.
    inversion Vq as [| ? ? Hq Vq']; subst.
    destruct Hdata as [Hrows Hcols].
    destruct (py_index_ok (ev_train_data s) u) as (row & Er & Hin).
    { now rewrite Hrows. }
    assert (Lrow : length row = num_question).
    { rewrite Forall_forall in Hcols. now apply Hcols. }
    destruct (forward_ok _ _ _ _ Hmodel Lrow) as [Ef Lout].
    destruct (py_index_ok (three_sigmoid_layers (ev_model s) row) q)
      as (value & Ev & _).
    { now rewrite Lout. }
    cbn [evaluate_loop].
    erewrite bind_ok
      by (eapply evaluate_body_ok; [exact Er | exact Ef | exact Gq
                                    | exact Ev | exact Gl]).
    rewrite (IH (skipn (S i) (question_id vd)) (skipn (S i) (is_correct vd)))
      by (auto; simpl in *; lia).
    cbn [combine filter length].
    rewrite (triple_correct_ok _ _ _ _ _ _ _ _ Er Ef Ev).
    destruct (py_bool_eq_int (Rge_bool value 0.5) label); cbn [length];
      do 3 f_equal; lia.
Qed.

End EvaluateLoop.

Lemma filter_length_le {A : Type} (f : A -> bool) (l : list A) :
  (length (filter f l) <= length l)%nat.
Proof.
  induction l as [| x l IH]; simpl; [lia |].
  destruct (f x); simpl; lia.
Qed.

Lemma ratio_unit_interval (c n : nat) :
  (c <= n)%nat -> (0 < n)%nat -> 0 <= INR c / INR n <= 1.
Proof.
  intros Hc Hn. apply lt_INR in Hn. simpl in Hn. apply le_INR in Hc.
  pose proof (pos_INR c) as Hp. split.
  - apply Rmult_le_reg_r with (INR n); [exact Hn |].
    unfold Rdiv. rewrite Rmult_assoc, Rinv_l by lra. lra.
  - apply Rmult_le_reg_r with (INR n); [exact Hn |].
    unfold Rdiv. rewrite Rmult_assoc, Rinv_l by lra. lra.
Qed.

Lemma correct_count_le (m : AutoEncoder) (data : list (list R)) (vd : triples) :
  length (question_id vd) = length (user_id vd) ->
  length (is_correct vd) = length (user_id vd) ->
  (correct_count m data vd <= length (user_id vd))%nat.
Proof.
  intros Lq Ll. unfold correct_count.
  etransitivity; [apply filter_length_le |].
  rewrite !length_combine. lia.
Qed.

Lemma evaluate_ok (num_user num_question k : nat) (vd : triples) (s : EvalEnv) :
  wf_model num_question k (ev_model s) ->
  wf_matrix num_user num_question (ev_train_data s) ->
  wf_triples num_user num_question vd ->
  evaluate vd s =
  (eval_mode s,
   py_div (correct_count (ev_model s) (ev_train_data s) vd)
          (length (user_id vd))).
Proof.
  intros Hm Hd (Lq & Ll & Vu & Vq). rewrite evaluate_unfold.
  rewrite (evaluate_loop_ok num_user num_question k vd (eval_mode s) Hm Hd
             (user_id vd) (question_id vd) (is_correct vd)); auto.
Qed.

(** C7. On a well-formed module, matrix and triple set with at least one
    triple, [evaluate] returns the number of triples whose guess equals their
    label divided by the number of triples, a value between 0 and 1; on a
    triple set with no triple it raises [ZeroDivisionError]. *)
Theorem evaluate_accuracy (num_user num_question k : nat) (vd : triples)
    (s : EvalEnv) :
  (wf_model num_question k (ev_model s) ->
   wf_matrix num_user num_question (ev_train_data s) ->
   wf_triples num_user num_question vd ->
   user_id vd <> [] ->
   exists acc,
     snd (evaluate vd s) = Ok acc /\
     acc = INR (correct_count (ev_model s) (ev_train_data s) vd) /
           INR (length (user_id vd)) /\
     0 <= acc <= 1) /\
  (user_id vd = [] -> snd (evaluate vd s) = Raise ZeroDivisionError).
Proof.
  split.
  - intros Hm Hd Hv Hne. rewrite (evaluate_ok _ _ _ _ _ Hm Hd Hv). simpl.
    destruct Hv as (Lq & Ll & _).
    pose proof (correct_count_le (ev_model s) (ev_train_data s) vd Lq Ll) as Hc.
    destruct (user_id vd) as [| u us] eqn:Eu; [congruence |].
    cbn [length py_div] in *. eexists. split; [reflexivity |].
    split; [reflexivity |]. apply ratio_unit_interval; lia.
  - intros E. rewrite evaluate_unfold, E. reflexivity.
Qed.

Lemma evaluate_accuracy_witness :
  let vd := mkTriples [0%Z] [0%Z] [1%Z] in
  let s := mkEvalEnv zero_model [[0]] in
  (exists acc,
     snd (evaluate vd s) = Ok acc /\
     acc = INR (correct_count (ev_model s) (ev_train_data s) vd) /
           INR (length (user_id vd)) /\
     0 <= acc <= 1) /\
  snd (evaluate (mkTriples [] [] []) s) = Raise ZeroDivisionError.
Proof.
  intros vd s. split.
  - apply (proj1 (evaluate_accuracy 1 1 1 vd s)).
    + solve_wf.
    + unfold wf_matrix. simpl. repeat constructor.
    + unfold wf_triples, valid_index. simpl.
      repeat split; repeat constructor; lia.
    + discriminate.
  - apply (proj2 (evaluate_accuracy 1 1 1 (mkTriples [] [] []) s)).
    reflexivity.
Defined.

(** ** The masked loss of a training step *)

Lemma upd_length (l : list R) (j : nat) (x : R) : length (upd l j x) = length l.
Proof.
  revert j. induction l as [| y l IH]; intros [| j]; simpl; auto.
Qed.

Lemma index_put_total (inputs : list R) :
  forall (output : list R) (nan_mask : list bool),
    length output = length inputs -> length nan_mask = length inputs ->
    exists target, index_put inputs output nan_mask = Ok target.
Proof.
  induction inputs as [| t inputs IH]; intros [| o output] [| b mask] Lo Lm;
    simpl in *; try discriminate.
  - now exists [].
  - destruct (IH output mask) as [target E]; try lia.
    rewrite E. simpl. eauto.
Qed.

Lemma index_put_lengths (inputs : list R) :
  forall (output : list R) (nan_mask : list bool) (target : list R),
    index_put inputs output nan_mask = Ok target ->
    length output = length inputs /\ length nan_mask = length inputs.
Proof.
  induction inputs as [| t inputs IH]; intros [| o output] [| b mask] target E;
    simpl in E; try discriminate.
  - split; reflexivity.
  - destruct (index_put inputs output mask) as [target' |] eqn:E'; simpl in E;
      [| discriminate].
    destruct (IH _ _ _ E') as [Lo Lm]. simpl. split; congruence.
Qed.

(** At a masked position the target is the reconstruction itself. *)
Lemma index_put_masked (inputs : list R) :
  forall (output : list R) (nan_mask : list bool) (target : list R) (j : nat),
    index_put inputs output nan_mask = Ok target ->
    nth_error nan_mask j = Some true ->
    nth_error target j = nth_error output j.
Proof.
  induction inputs as [| t inputs IH]; intros [| o output] [| b mask] target j E Hj;
    simpl in E; try discriminate.
  - destruct j; discriminate.
  - destruct (index_put inputs output mask) as [target' |] eqn:E'; simpl in E;
      [| discriminate].
    inversion E; subst target. destruct j as [| j]; simpl in *.
    + now inversion Hj.
    + eapply IH; eauto.
Qed.

(** The squared error against the masked target is the squared error at the
    observed positions. *)
Lemma masked_sq_err (inputs : list R) :
  forall (output : list R) (nan_mask : list bool) (target : list R),
    index_put inputs output nan_mask = Ok target ->
    exists diff,
      tensor_sub output target = Ok diff /\
      sum_sq diff = observed_sq_err output inputs nan_mask.
Proof.
  induction inputs as [| t inputs IH]; intros [| o output] [| b mask] target E;
    simpl in E; try discriminate.
  - inversion E; subst. exists []. split; reflexivity.
  - destruct (index_put inputs output mask) as [target' |] eqn:E'; simpl in E;
      [| discriminate].
    inversion E; subst target. destruct (IH _ _ _ E') as (diff & Ed & Es).
    simpl. rewrite Ed. simpl. eexists. split; [reflexivity |].
    rewrite sum_sq_cons, Es. destruct b; simpl; ring.
Qed.

Lemma observed_sq_err_upd (inputs : list R) :
  forall (output : list R) (nan_mask : list bool) (j : nat) (x : R),
    nth_error nan_mask j = Some true ->
    observed_sq_err (upd output j x) inputs nan_mask =
    observed_sq_err output inputs nan_mask.
Proof.
  induction inputs as [| t inputs IH]; intros [| o output] [| b mask] j x Hj;
    simpl; try reflexivity; destruct j as [| j]; simpl in *;
    try reflexivity; try discriminate.
  - now inversion Hj.
  - now rewrite IH.
Qed.

(** The squared error against a target that is kept fixed while entry [j] of
    the reconstruction moves to [x]. *)
Lemma fixed_target_sq_err (inputs : list R) :
  forall (output : list R) (nan_mask : list bool) (target : list R)
         (j : nat) (x : R),
    index_put inputs output nan_mask = Ok target ->
    nth_error nan_mask j = Some true ->
    exists diff,
      tensor_sub (upd output j x) target = Ok diff /\
      sum_sq diff =
      observed_sq_err output inputs nan_mask + (x - nth j output 0) ^ 2.
Proof.
  induction inputs as [| t inputs IH]; intros [| o output] [| b mask] target j x E Hj;
    simpl in E; try discriminate.
  - destruct j; discriminate.
  - destruct (index_put inputs output mask) as [target' |] eqn:E'; simpl in E;
      [| discriminate].
    inversion E; subst target. destruct j as [| j]; simpl in Hj.
    + inversion Hj; subst b.
      destruct (masked_sq_err _ _ _ _ E') as (diff & Ed & Es).
      simpl. rewrite Ed. simpl. eexists. split; [reflexivity |].
      rewrite sum_sq_cons, Es. ring.
    + destruct (IH _ _ _ j x E' Hj) as (diff & Ed & Es).
      simpl. rewrite Ed. simpl. eexists. split; [reflexivity |].
      rewrite sum_sq_cons, Es. destruct b; simpl; ring.
Qed.

Lemma derivable_pt_lim_shifted_square (c a : R) :
  derivable_pt_lim (fun x => c + (x - a) ^ 2) a 0.
Proof.
  intros eps Heps. exists (mkposreal eps Heps). intros d Hd Hlt. simpl in Hlt.
  replace ((c + (a + d - a) ^ 2 - (c + (a - a) ^ 2)) / d - 0) with d
    by (field; exact Hd).
  exact Hlt.
Qed.

(** The masked loss of a row whose raw cells, inputs and reconstruction have
    one length: the squared error vanishes at the missing positions, the loss
    is the squared error at the observed positions plus the penalty, and its
    derivative in a reconstructed entry at a missing position is zero, with
    the target following the reconstruction there or held fixed. *)
Lemma index_put_masked_loss (lamb : R) (model : AutoEncoder) (inputs output : list R)
    (raw : list cell) :
  length raw = length inputs ->
  length output = length inputs ->
  let nan_mask := map isnan raw in
  exists target,
    index_put inputs output nan_mask = Ok target /\
    (forall j o t,
        nth_error raw j = Some None ->
        nth_error output j = Some o ->
        nth_error target j = Some t ->
        (o - t) ^ 2 = 0) /\
    sample_loss lamb model output target =
      Ok (observed_sq_err output inputs nan_mask +
          lamb / 2 * get_weight_norm model) /\
    (forall j,
        nth_error raw j = Some None ->
        (exists f,
            (forall x, step_loss lamb model inputs nan_mask (upd output j x)
                       = Ok (f x)) /\
            derivable_pt_lim f (nth j output 0) 0) /\
        (exists f,
            (forall x, sample_loss lamb model (upd output j x) target
                       = Ok (f x)) /\
            derivable_pt_lim f (nth j output 0) 0)).
Proof.
  intros Lr Lo nan_mask.
  assert (Lm : length nan_mask = length inputs)
    by (unfold nan_mask; now rewrite length_map).
  assert (Hmask : forall j, nth_error raw j = Some None ->
                            nth_error nan_mask j = Some true).
  { intros j Hj. unfold nan_mask. rewrite nth_error_map, Hj. reflexivity. }
  destruct (index_put_total inputs output nan_mask Lo Lm) as [target E].
  exists target. split; [exact E |]. split; [| split].
  - intros j o t Hj Ho Ht.
    rewrite (index_put_masked _ _ _ _ j E (Hmask j Hj)), Ho in Ht.
    inversion Ht; subst. simpl. ring.
  - unfold sample_loss.
    destruct (masked_sq_err _ _ _ _ E) as (diff & Ed & Es).
    rewrite Ed. simpl. now rewrite Es.
  - intros j Hj. apply Hmask in Hj. split.
    + exists (fun _ => observed_sq_err output inputs nan_mask +
                       lamb / 2 * get_weight_norm model).
      split; [| apply derivable_pt_lim_const].
      intros x. unfold step_loss.
      destruct (index_put_total inputs (upd output j x) nan_mask) as [tx Ex];
        [now rewrite upd_length | exact Lm |].
      rewrite Ex. simpl. unfold sample_loss.
      destruct (masked_sq_err _ _ _ _ Ex) as (diff & Ed & Es).
      rewrite Ed. simpl. now rewrite Es, observed_sq_err_upd.
    + exists (fun x => (observed_sq_err output inputs nan_mask +
                        lamb / 2 * get_weight_norm model) +
                       (x - nth j output 0) ^ 2).
      split; [| apply derivable_pt_lim_shifted_square].
      intros x. unfold sample_loss.
      destruct (fixed_target_sq_err _ _ _ _ j x E Hj) as (diff & Ed & Es).
      rewrite Ed. simpl. rewrite Es. f_equal. ring.
Qed.

(** ** Training *)

Lemma Forall_zip_with {A B C : Type} (f : A -> B -> C)
    (P : A -> Prop) (Q : B -> Prop) (T : C -> Prop) (a : list A) (b : list B) :
  (forall x y, P x -> Q y -> T (f x y)) ->
  Forall P a -> Forall Q b -> Forall T (zip_with f a b).
Proof.
  intros Hf Ha. revert b. induction Ha as [| x a Hx Ha IH]; intros b Hb.
  - constructor.
  - destruct Hb as [| y b Hy Hb]; simpl; constructor; auto.
Qed.

Lemma sgd_linear_wf (lr : R) (n_in n_out : nat) (l d : Linear) :
  wf_linear n_in n_out l -> wf_linear n_in n_out d ->
  wf_linear n_in n_out (sgd_linear lr l d).
Proof.
  intros (Lw & Fw & Lb) (Ldw & Fdw & Ldb). unfold wf_linear, sgd_linear. simpl.
  repeat split.
  - rewrite zip_with_length; congruence.
  - eapply Forall_zip_with; [| exact Fw | exact Fdw].
    intros x y Hx Hy. simpl in *. rewrite zip_with_length; congruence.
  - rewrite zip_with_length; congruence.
Qed.

Lemma sgd_update_wf (lr : R) (num_question k : nat) (grads : Grads)
    (m : AutoEncoder) :
  wf_model num_question k m -> wf_grads num_question k grads ->
  wf_model num_question k (sgd_update lr grads m).
Proof.
  intros (Hg & Hhid & Hh) (Dg & Dhid & Dh). unfold wf_model, sgd_update. simpl.
  split; [| split]; apply sgd_linear_wf; assumption.
Qed.

Lemma py_index_row {A : Type} (rows cols : nat) (d : list (list A)) (user : nat) :
  wf_matrix rows cols d -> (user < rows)%nat ->
  exists row, py_index d (Z.of_nat user) = Ok row /\ length row = cols.
Proof.
  intros [Lr Lc] Hu.
  destruct (py_index_ok d (Z.of_nat user)) as (row & E & Hin).
  { unfold valid_index. lia. }
  exists row. split; [exact E |]. rewrite Forall_forall in Lc. now apply Lc.
Qed.

Lemma SGD_init_ok (lr : R) : 0 <= lr -> SGD_init lr = Ok (mkSGD lr).
Proof. intros H'. unfold SGD_init. destruct (Rlt_dec lr 0); [lra | reflexivity]. Qed.

Lemma range_nonpos (n : Z) : (n <= 0)%Z -> range n = [].
Proof. intros H'. unfold range. now replace (Z.to_nat n) with 0%nat by lia. Qed.

Lemma range_length (n : Z) : length (range n) = Z.to_nat n.
Proof. unfold range. now rewrite length_map, length_seq. Qed.

Section TrainingProperties.

Variable backward : AutoEncoder -> list R -> list bool -> R -> Grads.

(** What a step that completes has done: it read the user's two rows,
    reconstructed the zero-filled one, masked the target, added the loss to
    the running sum, and replaced every parameter [p] by [p - lr * grad] with
    the rate of the optimizer it was given. *)
Lemma train_step_inv (opt : SGD) (lamb : R) (user : nat) (tl tl' : R)
    (s s' : TrainEnv) :
  train_step backward opt lamb user tl s = (s', Ok tl') ->
  exists inputs raw output target loss,
    py_index (tr_zero_train_data s) (Z.of_nat user) = Ok inputs /\
    py_index (tr_train_data s) (Z.of_nat user) = Ok raw /\
    forward (tr_model s) inputs = Ok output /\
    index_put inputs output (map isnan raw) = Ok target /\
    sample_loss lamb (tr_model s) output target = Ok loss /\
    tl' = tl + loss /\
    s' = mkTrainEnv
           (sgd_update (sgd_lr opt)
              (backward (tr_model s) inputs (map isnan raw) lamb)
              (tr_model s))
           (tr_train_data s) (tr_zero_train_data s).
Proof.
  unfold train_step, bind, gets, lift, ret, optimizer_step, modify.
  destruct (py_index (tr_zero_train_data s) (Z.of_nat user)) as [inputs |]
    eqn:Ei; [| discriminate].
  destruct (forward (tr_model s) inputs) as [output |] eqn:Ef; [| discriminate].
  destruct (py_index (tr_train_data s) (Z.of_nat user)) as [raw |] eqn:Er;
    [| discriminate].
  destruct (index_put inputs output (map isnan raw)) as [target |] eqn:Et;
    [| discriminate].
  destruct (sample_loss lamb (tr_model s) output target) as [loss |] eqn:El;
    [| discriminate].
  simpl. intros E. inversion E; subst.
  exists inputs, raw, output, target, loss. repeat split; auto.
Qed.

Section Shapes.

Variables num_user num_question k : nat.
Hypothesis Hback : shape_preserving num_question k backward.

Lemma train_step_ok (opt : SGD) (lamb : R) (user : nat) (tl : R)
    (s : TrainEnv) :
  wf_env num_user num_question k s -> (user < num_user)%nat ->
  exists s' tl',
    train_step backward opt lamb user tl s = (s', Ok tl') /\
    wf_env num_user num_question k s'.
Proof.
  intros (Hm & Hraw & Hzero) Hu.
  destruct (py_index_row _ _ _ _ Hzero Hu) as (inputs & Ei & Li).
  destruct (py_index_row _ _ _ _ Hraw Hu) as (raw & Er & Lr).
  destruct (forward_ok _ _ _ _ Hm Li) as [Ef Lo].
  set (output := three_sigmoid_layers (tr_model s) inputs) in *.
  assert (Lm : length (map isnan raw) = num_question)
    by now rewrite length_map.
  destruct (index_put_total inputs output (map isnan raw)) as [target Et];
    try congruence.
  destruct (masked_sq_err _ _ _ _ Et) as (diff & Ed & _).
  unfold train_step, bind, gets, lift, ret, optimizer_step, modify.
  rewrite Ei, Ef, Er, Et. unfold sample_loss. rewrite Ed. simpl.
  do 2 eexists. split; [reflexivity |].
  split; [| split]; simpl; [| exact Hraw | exact Hzero].
  apply sgd_update_wf; [exact Hm | now apply Hback].
Qed.

Lemma user_loop_ok (opt : SGD) (lamb : R) (users : list nat) :
  forall (tl : R) (s : TrainEnv),
    wf_env num_user num_question k s ->
    Forall (fun u => (u < num_user)%nat) users ->
    exists s' tl',
      user_loop backward opt lamb users tl s = (s', Ok tl') /\
      wf_env num_user num_question k s'.
Proof.
  induction users as [| u users IH]; intros tl s Hs Hu.
  - exists s, tl. split; [reflexivity | exact Hs].
  - inversion Hu as [| ? ? Hu1 Hu2]; subst.
    destruct (train_step_ok opt lamb u tl s Hs Hu1) as (s1 & tl1 & E1 & Hs1).
    destruct (IH tl1 s1 Hs1 Hu2) as (s2 & tl2 & E2 & Hs2).
    exists s2, tl2. split; [| exact Hs2].
    cbn [user_loop]. now rewrite (bind_ok _ _ _ _ _ E1).
Qed.

Lemma call_evaluate_ok (vd : triples) (s : TrainEnv) :
  wf_env num_user num_question k s ->
  wf_triples num_user num_question vd -> user_id vd <> [] ->
  exists s' acc,
    call_evaluate vd s = (s', Ok acc) /\
    wf_env num_user num_question k s'.
Proof.
  intros (Hm & Hraw & Hzero) Hv Hne. unfold call_evaluate.
  rewrite (evaluate_ok num_user num_question k vd
             (mkEvalEnv (tr_model s) (tr_zero_train_data s)) Hm Hzero Hv).
  destruct (user_id vd) as [| u us]; [congruence |]. simpl.
  do 2 eexists. split; [reflexivity |].
  split; [| split]; simpl; [exact Hm | exact Hraw | exact Hzero].
Qed.

Lemma run_epoch_ok (opt : SGD) (lamb : R) (vd : triples)
    (loc : TrainLocals) (s : TrainEnv) :
  wf_env num_user num_question k s ->
  wf_triples num_user num_question vd -> user_id vd <> [] ->
  exists s' loc',
    run_epoch backward opt lamb vd num_user loc s = (s', Ok loc') /\
    wf_env num_user num_question k s'.
Proof.
  intros Hs Hv Hne. unfold run_epoch.
  assert (Hs0 : wf_env num_user num_question k
                  (mkTrainEnv (set_training true (tr_model s))
                     (tr_train_data s) (tr_zero_train_data s))).
  { destruct Hs as (Hm & Hraw & Hzero).
    split; [| split]; simpl; [exact Hm | exact Hraw | exact Hzero]. }
  destruct (user_loop_ok opt lamb (seq 0 num_user) 0 _ Hs0)
    as (s1 & tl & E1 & Hs1).
  { apply Forall_forall. intros u Hu. apply in_seq in Hu. lia. }
  destruct (call_evaluate_ok vd s1 Hs1 Hv Hne) as (s2 & acc & E2 & Hs2).
  exists s2. eexists. split; [| exact Hs2].
  unfold bind at 1. unfold model_train, modify.
  rewrite (bind_ok _ _ _ _ _ E1), (bind_ok _ _ _ _ _ E2). reflexivity.
Qed.

Lemma epoch_loop_ok (optimizer_final : SGD) (lamb : R) (vd : triples)
    (epochs : list Z) :
  forall (loc : TrainLocals) (s : TrainEnv),
    wf_env num_user num_question k s ->
    wf_triples num_user num_question vd -> user_id vd <> [] ->
    exists s' loc',
      epoch_loop backward optimizer_final lamb vd num_user epochs loc s
      = (s', Ok loc').
Proof.
  induction epochs as [| e epochs IH]; intros loc s Hs Hv Hne.
  - exists s, loc. reflexivity.
  - cbn [epoch_loop]. unfold epoch_body.
    destruct (run_epoch_ok
                (if (e >=? 40)%Z then optimizer_final else optimizer loc)
                lamb vd loc s Hs Hv Hne) as (s1 & loc1 & E1 & Hs1).
    rewrite (bind_ok _ _ _ _ _ E1). now apply IH.
Qed.

End Shapes.

End TrainingProperties.

Lemma py_index_nil {A : Type} (i : Z) : py_index (@nil A) i = Raise IndexError.
Proof.
  unfold py_index. simpl. destruct (i <? 0)%Z eqn:E; simpl.
  - destruct (0 <=? i)%Z eqn:E1; [| reflexivity].
    apply Z.ltb_lt in E. apply Z.leb_le in E1. lia.
  - destruct (0 <=? i)%Z; [| reflexivity].
    destruct (i <? 0)%Z; [discriminate | reflexivity].
Qed.

Section TrainingRun.

Variable backward : AutoEncoder -> list R -> list bool -> R -> Grads.

Lemma run_epoch_locals (opt : SGD) (lamb : R) (vd : triples)
  (num_student : nat) (loc loc' : TrainLocals) (s s' : TrainEnv) :
run_epoch backward opt lamb vd num_student loc s = (s', Ok loc') ->
exists train_loss valid_acc,
  loc' = mkTrainLocals opt (train_loss_lst loc ++ [train_loss])
           (valid_acc_lst loc ++ [valid_acc]).
Proof.
unfold run_epoch. intros E.
apply bind_inv_ok in E. destruct E as (s1 & [] & _ & E).
apply bind_inv_ok in E. destruct E as (s2 & train_loss & _ & E).
apply bind_inv_ok in E. destruct E as (s3 & valid_acc & _ & E).
unfold ret in E. inversion E; subst. eauto.
Qed.

Lemma epoch_loop_lengths (optimizer_final : SGD) (lamb : R) (vd : triples)
  (num_student : nat) (epochs : list Z) :
forall (loc loc' : TrainLocals) (s s' : TrainEnv),
  epoch_loop backward optimizer_final lamb vd num_student epochs loc s
  = (s', Ok loc') ->
  length (train_loss_lst loc') =
    (length (train_loss_lst loc) + length epochs)%nat /\
  length (valid_acc_lst loc') =
    (length (valid_acc_lst loc) + length epochs)%nat.
Proof.
induction epochs as [| e epochs IH]; intros loc loc' s s' E.
- unfold epoch_loop, ret in E. inversion E; subst. simpl. lia.
- cbn [epoch_loop] in E. apply bind_inv_ok in E.
  destruct E as (s1 & loc1 & E1 & E).
  unfold epoch_body in E1. apply run_epoch_locals in E1.
  destruct E1 as (tl & acc & ->).
  apply IH in E. simpl in E. rewrite !length_app in E. simpl in *. lia.
Qed.



(** C2. In every training step that completes, on the user's row: at every
    position that is missing in the raw matrix the squared error between the
    reconstruction and the overwritten target is zero; the loss the step adds
    to the running sum is the sum of the squared errors at the observed
    positions plus [lamb / 2] times the weight norm; and the derivative of
    the loss in the reconstructed entry at a missing position is zero, with
    the target following the reconstruction there or held fixed. *)
Theorem masked_loss (opt : SGD) (lamb : R) (user : nat) (tl tl' : R)
    (s s' : TrainEnv) :
  train_step backward opt lamb user tl s = (s', Ok tl') ->
  exists inputs raw output target,
    py_index (tr_zero_train_data s) (Z.of_nat user) = Ok inputs /\
    py_index (tr_train_data s) (Z.of_nat user) = Ok raw /\
    forward (tr_model s) inputs = Ok output /\
    index_put inputs output (map isnan raw) = Ok target /\
    (forall j o t,
        nth_error raw j = Some None ->
        nth_error output j = Some o ->
        nth_error target j = Some t ->
        (o - t) ^ 2 = 0) /\
    tl' = tl + (observed_sq_err output inputs (map isnan raw) +
                lamb / 2 * get_weight_norm (tr_model s)) /\
    (forall j,
        nth_error raw j = Some None ->
        (exists f,
            (forall x, step_loss lamb (tr_model s) inputs (map isnan raw)
                         (upd output j x) = Ok (f x)) /\
            derivable_pt_lim f (nth j output 0) 0) /\
        (exists f,
            (forall x, sample_loss lamb (tr_model s) (upd output j x) target
                       = Ok (f x)) /\
            derivable_pt_lim f (nth j output 0) 0)).
Proof.
  intros E.
  destruct (train_step_inv backward _ _ _ _ _ _ _ E)
    as (inputs & raw & output & target & loss & Ei & Er & Ef & Et & El & -> & _).
  destruct (index_put_lengths _ _ _ _ Et) as [Lo Lm].
  rewrite length_map in Lm.
  destruct (index_put_masked_loss lamb (tr_model s) inputs output raw Lm Lo)
    as (target' & Et' & Hzero & Hloss & Hgrad).
  cbv zeta in Et'. rewrite Et in Et'. inversion Et'; subst target'.
  rewrite El in Hloss. inversion Hloss; subst loss.
  exists inputs, raw, output, target. repeat split; auto; apply Hgrad; auto.
Qed.


(** C9. With [num_epoch = 0] (or less) the loop of [train] does not run: the
  module and the matrices are untouched and [valid_acc_lst[-1]] raises
  [IndexError].  A call that reaches the plot had [num_epoch >= 1] and
  hands over two series of [num_epoch] entries each; on well-formed
  arguments with a non-empty validation set such a call does reach it. *)
Theorem train_metric_lengths (lr lamb : R) (vd : triples) (num_epoch : Z)
  (s : TrainEnv) :
(0 <= lr -> (num_epoch <= 0)%Z ->
 train backward lr lamb vd num_epoch s = (s, Raise IndexError)) /\
(forall s' accs losses,
    train backward lr lamb vd num_epoch s = (s', Ok (accs, losses)) ->
    (1 <= num_epoch)%Z /\
    length accs = Z.to_nat num_epoch /\
    length losses = Z.to_nat num_epoch) /\
(forall num_user num_question k,
    0 <= lr -> (1 <= num_epoch)%Z ->
    wf_env num_user num_question k s ->
    wf_triples num_user num_question vd -> user_id vd <> [] ->
    shape_preserving num_question k backward ->
    exists s' accs losses,
      train backward lr lamb vd num_epoch s = (s', Ok (accs, losses))).
Proof.
split; [| split].
- intros Hlr Hn. unfold train, bind, lift, gets.
  rewrite !SGD_init_ok by lra. rewrite range_nonpos by exact Hn.
  cbn [epoch_loop]. unfold ret. cbn [valid_acc_lst].
  now rewrite py_index_nil.
- intros s' accs losses E. unfold train, bind, lift, gets, ret in E.
  destruct (SGD_init lr) as [opt |]; [| discriminate].
  destruct (SGD_init (lr * 0.5)) as [optimizer_final |]; [| discriminate].
  destruct (epoch_loop backward optimizer_final lamb vd
              (length (tr_train_data s)) (range num_epoch)
              (mkTrainLocals opt [] []) s) as [s1 [loc |]] eqn:El;
    [| discriminate].
  destruct (py_index (valid_acc_lst loc) (-1)) as [final |] eqn:Ep;
    [| discriminate].
  inversion E; subst. apply epoch_loop_lengths in El.
  rewrite range_length in El. simpl in El. destruct El as [Ll La].
  split; [| split; assumption].
  destruct (valid_acc_lst loc) as [| a l]; [now rewrite py_index_nil in Ep |].
  simpl in La. lia.
- intros num_user num_question k Hlr Hn Hs Hv Hne Hback.
  assert (Hnu : length (tr_train_data s) = num_user)
    by (destruct Hs as (_ & [Hl _] & _); exact Hl).
  destruct (epoch_loop_ok backward num_user num_question k Hback
              (mkSGD (lr * 0.5)) lamb vd (range num_epoch)
              (mkTrainLocals (mkSGD lr) [] []) s Hs Hv Hne)
    as (s1 & loc & El).
  pose proof (epoch_loop_lengths _ _ _ _ _ _ _ _ _ El) as [_ La].
  rewrite range_length in La. simpl in La.
  destruct (py_index_ok (valid_acc_lst loc) (-1)) as (final & Ep & _).
  { unfold valid_index. lia. }
  exists s1, (valid_acc_lst loc), (train_loss_lst loc).
  unfold train, bind, lift, gets, ret.
  rewrite !SGD_init_ok by lra. rewrite Hnu, El, Ep. reflexivity.
Qed.

End TrainingRun.

(** ** The chain-rule gradient has the shape of the parameters *)

Lemma affine_length (n_in n_out : nat) (l : Linear) (x : list R) :
  wf_linear n_in n_out l -> length (affine l x) = n_out.
Proof.
  intros (Lw & _ & Lb). unfold affine. rewrite zip_with_length; congruence.
Qed.

Lemma transpose_apply_length (n : nat) (w : list (list R)) :
  forall d : list R,
    Forall (fun row => length row = n) w ->
    length (transpose_apply w d n) = n.
Proof.
  induction w as [| row w IH]; intros d Hw; simpl.
  - apply repeat_length.
  - destruct d as [| di d]; [apply repeat_length |].
    inversion Hw as [| ? ? Hrow Hw']; subst.
    rewrite zip_with_length; rewrite length_map; [reflexivity |].
    now rewrite IH.
Qed.

Lemma through_sigmoid_length (d a : list R) :
  length d = length a -> length (through_sigmoid d a) = length a.
Proof. intros L. unfold through_sigmoid. rewrite zip_with_length; congruence. Qed.

Lemma outer_wf (d x b : list R) :
  length b = length d ->
  wf_linear (length x) (length d) (mkLinear (outer d x) b).
Proof.
  intros Lb. unfold wf_linear, outer. simpl. rewrite length_map.
  repeat split; [| exact Lb].
  apply Forall_map, Forall_forall. intros di _. apply length_map.
Qed.

Lemma add_scaled_wf (c : R) (n_in n_out : nat) (a w : list (list R))
    (b : list R) :
  wf_linear n_in n_out (mkLinear a b) ->
  length w = n_out -> Forall (fun row => length row = n_in) w ->
  wf_linear n_in n_out (mkLinear (add_scaled c a w) b).
Proof.
  intros (La & Fa & Lb) Lw Fw. unfold wf_linear, add_scaled in *. simpl in *.
  repeat split; [| | exact Lb].
  - rewrite zip_with_length; congruence.
  - eapply Forall_zip_with; [| exact Fa | exact Fw].
    intros x y Hx Hy. simpl in *. rewrite zip_with_length; congruence.
Qed.

Lemma backprop_shape (num_question k : nat) :
  shape_preserving num_question k backprop.
Proof.
  intros m inputs nan_mask lamb (Hg & Hhid & Hh) Li Lm.
  set (a1 := map sigmoid (affine (g m) inputs)).
  set (a2 := map sigmoid (affine (hidden m) a1)).
  set (out := map sigmoid (affine (h m) a2)).
  assert (L1 : length a1 = k)
    by (unfold a1; rewrite length_map; eapply affine_length; eauto).
  assert (L2 : length a2 = k)
    by (unfold a2; rewrite length_map; eapply affine_length; eauto).
  assert (L3 : length out = num_question)
    by (unfold out; rewrite length_map; eapply affine_length; eauto).
  unfold backprop. fold a1. fold a2. fold out. cbv zeta.
  set (d_out := zip_with _ nan_mask (zip_with Rminus out inputs)).
  assert (Ld : length d_out = num_question).
  { unfold d_out. rewrite zip_with_length; [exact Lm |].
    rewrite zip_with_length; congruence. }
  set (delta3 := through_sigmoid d_out out).
  assert (Ld3 : length delta3 = num_question)
    by (unfold delta3; rewrite through_sigmoid_length; congruence).
  set (delta2 := through_sigmoid (transpose_apply (weight (h m)) delta3 (length a2)) a2).
  assert (Ld2 : length delta2 = k).
  { unfold delta2. rewrite through_sigmoid_length; [exact L2 |].
    apply transpose_apply_length. rewrite L2. apply Hh. }
  set (delta1 := through_sigmoid
                   (transpose_apply (weight (hidden m)) delta2 (length a1)) a1).
  assert (Ld1 : length delta1 = k).
  { unfold delta1. rewrite through_sigmoid_length; [exact L1 |].
    apply transpose_apply_length. rewrite L1. apply Hhid. }
  split; [| split]; simpl.
  - apply add_scaled_wf; try apply Hg.
    rewrite <- Li, <- Ld1. now apply outer_wf.
  - rewrite <- L1 at 1. rewrite <- Ld2. now apply outer_wf.
  - apply add_scaled_wf; try apply Hh.
    rewrite <- L2, <- Ld3. now apply outer_wf.
Qed.

(** ** The theorems on concrete arguments *)

Lemma one_user_env_wf : wf_env 1 1 1 one_user_env.
Proof.
  split; [solve_wf |]. split; unfold wf_matrix; simpl; repeat constructor.
Qed.

Lemma one_triple_wf : wf_triples 1 1 one_triple.
Proof.
  unfold wf_triples, valid_index. simpl. repeat split; repeat constructor; lia.
Qed.

Lemma two_question_env_wf : wf_env 1 2 1 two_question_env.
Proof.
  split; [solve_wf |]. split; unfold wf_matrix; simpl; repeat constructor.
Qed.

Lemma masked_loss_witness :
  exists s' tl',
    train_step backprop (mkSGD 0.015) 0 0 0 two_question_env = (s', Ok tl') /\
    exists output target,
      forward two_question_model [1; 0] = Ok output /\
      index_put [1; 0] output [false; true] = Ok target /\
      (forall o t,
          nth_error output 1 = Some o -> nth_error target 1 = Some t ->
          (o - t) ^ 2 = 0) /\
      tl' = 0 + (observed_sq_err output [1; 0] [false; true] +
                 0 / 2 * get_weight_norm two_question_model) /\
      (exists f,
          (forall x, step_loss 0 two_question_model [1; 0] [false; true]
                       (upd output 1 x) = Ok (f x)) /\
          derivable_pt_lim f (nth 1 output 0) 0).
Proof.
  destruct (train_step_ok backprop 1 2 1 (backprop_shape 2 1) (mkSGD 0.015)
              0 0 0 two_question_env two_question_env_wf) as (s' & tl' & E & _);
    [lia |].
  exists s', tl'. split; [exact E |].
  destruct (masked_loss backprop _ _ _ _ _ _ _ E)
    as (inputs & raw & output & target & Ei & Er & Ef & Et & Hz & Hl & Hg).
  change (Ok [1; 0] = Ok inputs) in Ei.
  change (Ok [Some 1; None] = Ok raw) in Er.
  inversion Ei; inversion Er; subst inputs raw.
  exists output, target. split; [exact Ef |]. split; [exact Et |].
  split; [intros o t; apply (Hz 1%nat); reflexivity |]. split; [exact Hl |].
  apply (Hg 1%nat). reflexivity.
Defined.


Lemma train_metric_lengths_witness :
  train backprop 0.015 0 one_triple 0 one_user_env
  = (one_user_env, Raise IndexError) /\
  exists s' accs losses,
    train backprop 0.015 0 one_triple 2 one_user_env = (s', Ok (accs, losses)) /\
    length accs = 2%nat /\ length losses = 2%nat.
Proof.
  assert (Hlr : 0 <= 0.015) by lra.
  split.
  - apply (proj1 (train_metric_lengths backprop 0.015 0 one_triple 0
                    one_user_env)); [exact Hlr | lia].
  - destruct (train_metric_lengths backprop 0.015 0 one_triple 2 one_user_env)
      as (_ & Hlen & Hrun).
    destruct (Hrun 1%nat 1%nat 1%nat Hlr) as (s' & accs & losses & E);
      [lia | exact one_user_env_wf | exact one_triple_wf | discriminate
       | apply backprop_shape |].
    exists s', accs, losses. split; [exact E |].
    destruct (Hlen _ _ _ E) as (_ & La & Ll). split; assumption.
Defined.

(** * Further properties of the code *)

(** ** [get_weight_norm] as it is computed *)

(** X1. [get_weight_norm] returns the squared Frobenius norm of the encoder
    weight plus that of the decoder weight; the hidden layer, the biases and
    the mode flag have no part in it: two modules with the same encoder and
    decoder weights have the same norm. *)
Theorem get_weight_norm_outer_layers (m : AutoEncoder) :
  get_weight_norm m =
    frobenius_sq (weight (g m)) + frobenius_sq (weight (h m)) /\
  (forall m', same_outer_weights m m' -> get_weight_norm m' = get_weight_norm m).
Proof.
  split.
  - unfold get_weight_norm. cbv zeta. now rewrite !norm2_sq.
  - intros m' [Eg Eh]. unfold get_weight_norm. cbv zeta. now rewrite Eg, Eh.
Qed.

(** X2. [get_weight_norm] is never negative, and it is zero whenever every
    entry of the encoder weight and of the decoder weight is zero, whatever
    the hidden layer and the biases hold. *)
Theorem get_weight_norm_sign (m : AutoEncoder) :
  0 <= get_weight_norm m /\
  (all_zero (weight (g m)) -> all_zero (weight (h m)) ->
   get_weight_norm m = 0).
Proof.
  pose proof (frobenius_sq_nonneg (weight (g m))) as Hg.
  pose proof (frobenius_sq_nonneg (weight (h m))) as Hh.
  unfold get_weight_norm. cbv zeta. rewrite !norm2_sq. split; [lra |].
  intros Zg Zh. apply frobenius_sq_zero in Zg, Zh. lra.
Qed.

(** ** [forward] on an input of the wrong size *)

Lemma dot_mismatch (w x : list R) :
  length w <> length x -> dot w x = Raise RuntimeError.
Proof.
  revert x. induction w as [| wi w IH]; intros [| xi x] L; simpl in *;
    try reflexivity; try congruence.
  rewrite IH by congruence. reflexivity.
Qed.

Lemma apply_linear_mismatch (n_in n_out : nat) (l : Linear) (x : list R) :
  wf_linear n_in n_out l -> (0 < n_out)%nat -> length x <> n_in ->
  apply_linear l x = Raise RuntimeError.
Proof.
  intros (Lw & Fw & Lb) Hpos Lx. unfold apply_linear.
  destruct (weight l) as [| row w]; [simpl in Lw; lia |].
  destruct (bias l) as [| bj b]; [simpl in Lb; lia |].
  inversion Fw as [| ? ? Hrow _]; subst. simpl.
  rewrite dot_mismatch by congruence. reflexivity.
Qed.

(** X3. On a module built as [AutoEncoder(num_question, k)] with [k >= 1],
    [forward] returns a vector exactly when its input has [num_question]
    entries; on any other input it raises a shape error. *)
Theorem forward_input_size (num_question k : nat) (m : AutoEncoder)
    (inputs : list R) :
  wf_model num_question k m -> (0 < k)%nat ->
  ((exists out, forward m inputs = Ok out) <-> length inputs = num_question) /\
  (length inputs <> num_question -> forward m inputs = Raise RuntimeError).
Proof.
  intros Hm Hk.
  assert (Hbad : length inputs <> num_question ->
                 forward m inputs = Raise RuntimeError).
  { intros L. destruct Hm as (Hg & _). unfold forward. cbv zeta.
    now rewrite (apply_linear_mismatch _ _ _ _ Hg Hk L). }
  split; [| exact Hbad]. split.
  - intros [out E]. destruct (Nat.eq_dec (length inputs) num_question) as [L | L];
      [exact L |]. rewrite (Hbad L) in E. discriminate.
  - intros L. destruct (forward_ok _ _ _ _ Hm L) as [E _]. eauto.
Qed.

Lemma forward_input_size_witness :
  ((exists out, forward zero_model [1] = Ok out) <-> length [1] = 1%nat) /\
  forward zero_model [1; 0] = Raise RuntimeError.
Proof.
  destruct (forward_input_size 1 1 zero_model [1]) as [Hiff _];
    [solve_wf | lia |].
  split; [exact Hiff |].
  apply (proj2 (forward_input_size 1 1 zero_model [1; 0]
                  ltac:(solve_wf) ltac:(lia))).
  simpl. lia.
Defined.

(** ** What [evaluate] returns, whatever it is given *)

Lemma evaluate_body_counters (vd : triples) (i : nat) (u : Z)
    (correct total correct' total' : nat) (s s' : EvalEnv) :
  evaluate_body vd i u (correct, total) s = (s', Ok (correct', total')) ->
  total' = S total /\ (correct <= correct' <= S correct)%nat.
Proof.
  unfold evaluate_body, bind, gets, lift, ret.
  destruct (py_index (ev_train_data s) u) as [inputs |]; [| discriminate].
  destruct (forward (ev_model s) inputs) as [output |]; [| discriminate].
  destruct (list_get (question_id vd) i) as [q |]; [| discriminate].
  destruct (py_index output q) as [value |]; [| discriminate].
  destruct (list_get (is_correct vd) i) as [label |]; [| discriminate].
  intros E. inversion E; subst.
  destruct (py_bool_eq_int (Rge_bool value 0.5) label); lia.
Qed.

Lemma evaluate_loop_counters (vd : triples) (users : list Z) :
  forall (i correct total correct' total' : nat) (s s' : EvalEnv),
    evaluate_loop vd i users (correct, total) s = (s', Ok (correct', total')) ->
    total' = (total + length users)%nat /\
    (correct <= correct' <= correct + length users)%nat.
Proof.
  induction users as [| u users IH];
    intros i correct total correct' total' s s' E.
  - unfold evaluate_loop, ret in E. inversion E; subst. simpl. lia.
  - cbn [evaluate_loop] in E. apply bind_inv_ok in E.
    destruct E as (s1 & [c1 t1] & E1 & E).
    apply evaluate_body_counters in E1. apply IH in E. simpl. lia.
Qed.

(** X4. Whenever [evaluate] returns a value, on any module, matrix and
    triple set, there was at least one triple and the value is a number of
    triples divided by the number of all triples: it lies between 0 and 1. *)
Theorem evaluate_value_range (vd : triples) (s s' : EvalEnv) (acc : R) :
  evaluate vd s = (s', Ok acc) ->
  user_id vd <> [] /\
  (exists correct : nat,
      (correct <= length (user_id vd))%nat /\
      acc = INR correct / INR (length (user_id vd))) /\
  0 <= acc <= 1.
Proof.
  rewrite evaluate_unfold. intros E. inversion E as [[Es Ea]]. clear E.
  destruct (evaluate_loop vd 0 (user_id vd) (0%nat, 0%nat) (eval_mode s))
    as [s1 [[correct total] | e]] eqn:El; simpl in Ea; [| discriminate].
  apply evaluate_loop_counters in El. destruct El as [Et Ec]. simpl in Et, Ec.
  subst total. destruct (user_id vd) as [| u us]; [discriminate |].
  change (Ok (INR correct / INR (length (u :: us))) = Ok acc) in Ea.
  injection Ea as <-. split; [discriminate |]. split.
  - exists correct. split; [exact (proj2 Ec) | reflexivity].
  - exact (ratio_unit_interval correct (length (u :: us)) (proj2 Ec)
             (Nat.lt_0_succ _)).
Qed.

Lemma evaluate_value_range_witness :
  exists s' acc,
    evaluate one_triple (mkEvalEnv zero_model [[0]]) = (s', Ok acc) /\
    0 <= acc <= 1.
Proof.
  assert (E : evaluate one_triple (mkEvalEnv zero_model [[0]]) =
              (eval_mode (mkEvalEnv zero_model [[0]]),
               py_div (correct_count zero_model [[0]] one_triple) 1)).
  { apply (evaluate_ok 1 1 1); [solve_wf | | exact one_triple_wf].
    unfold wf_matrix. simpl. repeat constructor. }
  cbn [py_div] in E. do 2 eexists. split; [exact E |].
  apply (evaluate_value_range _ _ _ _ E).
Defined.

(** ** Which triple sets [evaluate] accepts *)

Lemma valid_index_dec (n : nat) (i : Z) :
  {valid_index n i} + {~ valid_index n i}.
Proof.
  unfold valid_index.
  destruct (Z_le_dec (- Z.of_nat n) i); [| right; lia].
  destruct (Z_lt_dec i (Z.of_nat n)); [left; lia | right; lia].
Qed.

Lemma py_index_invalid {A : Type} (t : list A) (i : Z) :
  ~ valid_index (length t) i -> py_index t i = Raise IndexError.
Proof.
  unfold valid_index, py_index. intros Hi. cbv zeta.
  set (n := Z.of_nat (length t)) in *.
  destruct (Z.ltb_spec i 0) as [Hneg | Hpos].
  - destruct (Z.leb_spec 0 (n + i)); [lia | reflexivity].
  - destruct (Z.leb_spec 0 i); [| lia].
    destruct (Z.ltb_spec i n); [lia | reflexivity].
Qed.

Section EvaluateOutcome.

Variables num_user num_question k : nat.
Variable vd : triples.
Variable s : EvalEnv.
Hypothesis Hmodel : wf_model num_question k (ev_model s).
Hypothesis Hdata : wf_matrix num_user num_question (ev_train_data s).

Lemma evaluate_body_outcome (i : nat) (u : Z) (c : nat * nat) :
  (exists c', evaluate_body vd i u c s = (s, Ok c') /\
              scorable num_user num_question vd i u) \/
  (evaluate_body vd i u c s = (s, Raise IndexError) /\
   ~ scorable num_user num_question vd i u).
Proof.
  destruct c as [correct total]. unfold scorable.
  destruct (valid_index_dec num_user u) as [Hu | Hu].
  2: { right. split; [| tauto].
       unfold evaluate_body, bind, gets, lift.
       rewrite py_index_invalid; [reflexivity |].
       destruct Hdata as [Hrows _]. now rewrite Hrows. }
  destruct Hdata as [Hrows Hcols].
  destruct (py_index_ok (ev_train_data s) u) as (row & Er & Hin);
    [now rewrite Hrows |].
  assert (Lrow : length row = num_question)
    by (rewrite Forall_forall in Hcols; now apply Hcols).
  destruct (forward_ok _ _ _ _ Hmodel Lrow) as [Ef Lout].
  destruct (nth_error (question_id vd) i) as [q |] eqn:Eq.
  2: { right. split; [| intros (_ & (q & Hq & _) & _); discriminate].
       unfold evaluate_body, bind, gets, lift, list_get.
       now rewrite Er, Ef, Eq. }
  destruct (valid_index_dec num_question q) as [Hq | Hq].
  2: { right. split.
       - unfold evaluate_body, bind, gets, lift, list_get.
         rewrite Er, Ef, Eq. rewrite py_index_invalid; [reflexivity |].
         now rewrite Lout.
       - intros (_ & (q' & Hq' & Hv) & _). congruence. }
  destruct (py_index_ok (three_sigmoid_layers (ev_model s) row) q)
    as (value & Ev & _); [now rewrite Lout |].
  destruct (nth_error (is_correct vd) i) as [label |] eqn:El.
  2: { right. split; [| intros (_ & _ & (l & Hl)); discriminate].
       unfold evaluate_body, bind, gets, lift, list_get.
       now rewrite Er, Ef, Eq, Ev, El. }
  left. eexists. split.
  - eapply evaluate_body_ok; eauto; unfold list_get; now rewrite ?Eq, ?El.
  - eauto 10.
Qed.

Lemma evaluate_loop_outcome (users : list Z) :
  forall (i : nat) (c : nat * nat),
    match snd (evaluate_loop vd i users c s) with
    | Ok _ =>
        forall j u, nth_error users j = Some u ->
                    scorable num_user num_question vd (i + j) u
    | Raise IndexError =>
        ~ (forall j u, nth_error users j = Some u ->
                       scorable num_user num_question vd (i + j) u)
    | Raise _ => False
    end.
Proof.
  induction users as [| u users IH]; intros i c.
  - simpl. intros [| j] u' E; discriminate.
  - cbn [evaluate_loop].
    destruct (evaluate_body_outcome i u c) as [(c' & Eb & Hs) | (Eb & Hs)].
    + rewrite (bind_ok _ _ _ _ _ Eb). specialize (IH (S i) c').
      destruct (snd (evaluate_loop vd (S i) users c' s)) as [c2 | []]; auto.
      * intros [| j] u' E; simpl in E.
        -- inversion E; subst. now rewrite Nat.add_0_r.
        -- rewrite <- plus_n_Sm. now apply IH.
      * intros Hall. apply IH. intros j u' E.
        specialize (Hall (S j) u' E). now rewrite <- plus_n_Sm in Hall.
    + rewrite (bind_raise _ _ _ _ _ Eb). simpl.
      intros Hall. apply Hs. specialize (Hall 0%nat u eq_refl).
      now rewrite Nat.add_0_r in Hall.
Qed.

End EvaluateOutcome.

(** X5. On a well-formed module and matrix the outcome of [evaluate] is
    decided by the triple set alone: it returns a value exactly when there is
    a triple and every triple can be scored (its user exists, and at its
    position there is a question that exists and a label); it raises
    [ZeroDivisionError] exactly when there is no triple, [IndexError] exactly
    when some triple cannot be scored, and never anything else. *)
Theorem evaluate_outcome (num_user num_question k : nat) (vd : triples)
    (s : EvalEnv) :
  wf_model num_question k (ev_model s) ->
  wf_matrix num_user num_question (ev_train_data s) ->
  match snd (evaluate vd s) with
  | Ok _ => usable_triples num_user num_question vd /\ user_id vd <> []
  | Raise ZeroDivisionError => user_id vd = []
  | Raise IndexError => ~ usable_triples num_user num_question vd
  | Raise _ => False
  end.
Proof.
  intros Hm Hd. rewrite evaluate_unfold. cbn [snd].
  pose proof (evaluate_loop_outcome num_user num_question k vd (eval_mode s)
                Hm Hd (user_id vd) 0 (0%nat, 0%nat)) as Hloop.
  destruct (evaluate_loop vd 0 (user_id vd) (0%nat, 0%nat) (eval_mode s))
    as [s1 [[correct total] | e]] eqn:El; cbn [snd fst] in *.
  - apply evaluate_loop_counters in El. destruct El as [Et _]. simpl in Et.
    subst total. destruct (user_id vd) as [| u us] eqn:Eu.
    + reflexivity.
    + cbn [length py_div]. split; [| discriminate].
      intros i u' E. rewrite Eu in E. exact (Hloop i u' E).
  - destruct e; try contradiction.
    intros Huse. apply Hloop. intros j u' E. exact (Huse j u' E).
Qed.

Lemma evaluate_outcome_witness :
  match snd (evaluate one_triple (mkEvalEnv zero_model [[0]])) with
  | Ok _ => usable_triples 1 1 one_triple /\ user_id one_triple <> []
  | Raise ZeroDivisionError => user_id one_triple = []
  | Raise IndexError => ~ usable_triples 1 1 one_triple
  | Raise _ => False
  end.
Proof.
  apply (evaluate_outcome 1 1 1 one_triple (mkEvalEnv zero_model [[0]]));
    [solve_wf | unfold wf_matrix; simpl; repeat constructor].
Defined.

(** ** Surplus entries, negative ids and flipped labels *)

Lemma list_get_firstn {A : Type} (n : nat) (l : list A) (i : nat) :
  (i < n)%nat -> list_get (firstn n l) i = list_get l i.
Proof.
  intros Hi. unfold list_get. rewrite nth_error_firstn.
  destruct (Nat.ltb_spec i n); [reflexivity | lia].
Qed.

Lemma evaluate_loop_truncate (vd : triples) (users : list Z) :
  forall (i : nat) (c : nat * nat) (s : EvalEnv),
    (i + length users <= length (user_id vd))%nat ->
    evaluate_loop (truncate_triples vd) i users c s
    = evaluate_loop vd i users c s.
Proof.
  induction users as [| u users IH]; intros i c s Hi; [reflexivity |].
  cbn [evaluate_loop]. simpl in Hi.
  assert (Eb : evaluate_body (truncate_triples vd) i u c s
               = evaluate_body vd i u c s).
  { unfold evaluate_body, truncate_triples. cbn [question_id is_correct].
    rewrite !list_get_firstn by lia. reflexivity. }
  unfold bind. rewrite Eb.
  destruct (evaluate_body vd i u c s) as [s1 [c1 | e]]; [| reflexivity].
  apply IH. lia.
Qed.

(** X6. [evaluate] walks the user list and reads the two other lists by
    position: entries of [question_id] and [is_correct] beyond the length of
    [user_id] are never read, so cutting both lists to that length changes
    neither the result nor the state. *)
Theorem evaluate_ignores_surplus (vd : triples) (s : EvalEnv) :
  evaluate (truncate_triples vd) s = evaluate vd s.
Proof.
  unfold evaluate, bind. destruct (model_eval s) as [s0 [[] | e]]; [| reflexivity].
  change (user_id (truncate_triples vd)) with (user_id vd).
  rewrite evaluate_loop_truncate by (simpl; lia). reflexivity.
Qed.

Lemma py_index_negative {A : Type} (t : list A) (i : Z) :
  (0 <= i < Z.of_nat (length t))%Z ->
  py_index t (i - Z.of_nat (length t)) = py_index t i.
Proof.
  intros Hi. unfold py_index. cbv zeta.
  destruct (Z.ltb_spec (i - Z.of_nat (length t)) 0); [| lia].
  destruct (Z.ltb_spec i 0); [lia |].
  now replace (Z.of_nat (length t) + (i - Z.of_nat (length t)))%Z with i by lia.
Qed.

Lemma py_index_length {A : Type} (rows cols : nat) (d : list (list A)) (u : Z)
    (row : list A) :
  wf_matrix rows cols d -> py_index d u = Ok row -> length row = cols.
Proof.
  intros [_ Hc] E. unfold py_index in E. cbv zeta in E.
  destruct (_ && _)%bool; [| discriminate].
  destruct (nth_error d _) as [r |] eqn:En; [| discriminate].
  inversion E; subst. apply nth_error_In in En.
  rewrite Forall_forall in Hc. now apply Hc.
Qed.

Section NegativeIds.

Variables num_user num_question k : nat.
Variable vd : triples.
Hypothesis Hq : Forall (fun q => (0 <= q < Z.of_nat num_question)%Z)
                  (question_id vd).

Lemma evaluate_body_negative (i : nat) (u : Z) (c : nat * nat) (s : EvalEnv) :
  wf_model num_question k (ev_model s) ->
  wf_matrix num_user num_question (ev_train_data s) ->
  (0 <= u < Z.of_nat num_user)%Z ->
  evaluate_body (negative_ids num_user num_question vd) i
    (u - Z.of_nat num_user) c s
  = evaluate_body vd i u c s.
Proof.
  intros Hm Hd Hu. destruct c as [correct total].
  unfold evaluate_body, bind, gets, lift, ret.
  replace (py_index (ev_train_data s) (u - Z.of_nat num_user))
    with (py_index (ev_train_data s) u)
    by (destruct Hd as [<- _]; symmetry; now apply py_index_negative).
  destruct (py_index (ev_train_data s) u) as [row |] eqn:Er; [| reflexivity].
  pose proof (py_index_length _ _ _ _ _ Hd Er) as Lrow.
  destruct (forward_ok _ _ _ _ Hm Lrow) as [Ef Lout]. rewrite Ef.
  unfold negative_ids, list_get. cbn [question_id is_correct].
  rewrite nth_error_map.
  destruct (nth_error (question_id vd) i) as [q |] eqn:Eq; [| reflexivity].
  cbn [option_map].
  assert (Hqi : (0 <= q < Z.of_nat num_question)%Z).
  { rewrite Forall_forall in Hq. apply Hq. eapply nth_error_In; eauto. }
  rewrite <- Lout at 1. rewrite py_index_negative by (rewrite Lout; exact Hqi).
  reflexivity.
Qed.

Lemma evaluate_loop_negative (users : list Z) :
  forall (i : nat) (c : nat * nat) (s : EvalEnv),
    wf_model num_question k (ev_model s) ->
    wf_matrix num_user num_question (ev_train_data s) ->
    Forall (fun u => (0 <= u < Z.of_nat num_user)%Z) users ->
    evaluate_loop (negative_ids num_user num_question vd) i
      (map (fun u => (u - Z.of_nat num_user)%Z) users) c s
    = evaluate_loop vd i users c s.
Proof.
  induction users as [| u users IH]; intros i c s Hm Hd Hu; [reflexivity |].
  inversion Hu as [| ? ? Hu1 Hu2]; subst.
  cbn [map evaluate_loop]. unfold bind.
  rewrite evaluate_body_negative by assumption. pose proof (evaluate_body_frame vd i u c s) as F.
  destruct (evaluate_body vd i u c s) as [s1 [c1 | e]]; [| reflexivity].
  simpl in F. subst s1. now apply IH.
Qed.

End NegativeIds.

(** X7. [evaluate] does not reject negative ids: a user id and a question id
    written as negative indices, counted from the end of the matrix and of
    the reconstructed row, are scored as the user and the question they reach
    from the end. *)
Theorem evaluate_negative_ids (num_user num_question k : nat) (vd : triples)
    (s : EvalEnv) :
  wf_model num_question k (ev_model s) ->
  wf_matrix num_user num_question (ev_train_data s) ->
  Forall (fun u => (0 <= u < Z.of_nat num_user)%Z) (user_id vd) ->
  Forall (fun q => (0 <= q < Z.of_nat num_question)%Z) (question_id vd) ->
  evaluate (negative_ids num_user num_question vd) s = evaluate vd s.
Proof.
  intros Hm Hd Hu Hq. unfold evaluate, bind, model_eval, modify.
  change (user_id (negative_ids num_user num_question vd))
    with (map (fun u => (u - Z.of_nat num_user)%Z) (user_id vd)).
  rewrite (evaluate_loop_negative num_user num_question k vd Hq); auto.
Qed.

Lemma evaluate_negative_ids_witness :
  evaluate (mkTriples [(-1)%Z] [(-1)%Z] [1%Z]) (mkEvalEnv zero_model [[0]])
  = evaluate one_triple (mkEvalEnv zero_model [[0]]).
Proof.
  apply (evaluate_negative_ids 1 1 1 one_triple (mkEvalEnv zero_model [[0]])).
  - solve_wf.
  - unfold wf_matrix. simpl. repeat constructor.
  - repeat constructor; simpl; lia.
  - repeat constructor; simpl; lia.
Defined.

Lemma prediction_ok (num_user num_question k : nat) (m : AutoEncoder)
    (data : list (list R)) (u q : Z) :
  wf_model num_question k m -> wf_matrix num_user num_question data ->
  valid_index num_user u -> valid_index num_question q ->
  exists guess, prediction m data u q = Ok guess.
Proof.
  intros Hm Hd Hu Hq. unfold prediction.
  destruct (py_index_ok data u) as (row & Er & _);
    [destruct Hd as [-> _]; exact Hu |].
  pose proof (py_index_length _ _ _ _ _ Hd Er) as Lrow.
  destruct (forward_ok _ _ _ _ Hm Lrow) as [Ef Lout].
  destruct (py_index_ok (three_sigmoid_layers m row) q) as (value & Ev & _);
    [now rewrite Lout |].
  rewrite Er. simpl. rewrite Ef. simpl. rewrite Ev. simpl. eauto.
Qed.

Lemma py_bool_eq_int_flip (b : bool) (label : Z) :
  label = 0%Z \/ label = 1%Z ->
  py_bool_eq_int b (1 - label) = negb (py_bool_eq_int b label).
Proof. intros [-> | ->]; destruct b; reflexivity. Qed.

Lemma correct_count_flip (num_user num_question k : nat) (m : AutoEncoder)
    (data : list (list R)) (users : list Z) :
  wf_model num_question k m -> wf_matrix num_user num_question data ->
  forall qs labels : list Z,
    length qs = length users -> length labels = length users ->
    Forall (valid_index num_user) users ->
    Forall (valid_index num_question) qs ->
    Forall (fun label => label = 0%Z \/ label = 1%Z) labels ->
    (length (filter (triple_correct m data)
               (combine (combine users qs) labels)) +
     length (filter (triple_correct m data)
               (combine (combine users qs)
                  (map (fun label => (1 - label)%Z) labels))))%nat
    = length users.
Proof.
  intros Hm Hd. induction users as [| u users IH];
    intros [| q qs] [| label labels] Lq Ll Hu Hq Hl; simpl in Lq, Ll;
    try discriminate; [reflexivity |].
  inversion Hu as [| ? ? Hu1 Hu2]; inversion Hq as [| ? ? Hq1 Hq2];
    inversion Hl as [| ? ? Hl1 Hl2]; subst.
  specialize (IH qs labels ltac:(lia) ltac:(lia) Hu2 Hq2 Hl2).
  destruct (prediction_ok _ _ _ _ _ _ _ Hm Hd Hu1 Hq1) as [guess Eg].
  assert (E1 : triple_correct m data (u, q, label)
               = py_bool_eq_int guess label)
    by (unfold triple_correct; now rewrite Eg).
  assert (E2 : triple_correct m data (u, q, (1 - label)%Z)
               = negb (py_bool_eq_int guess label))
    by (unfold triple_correct; rewrite Eg; now apply py_bool_eq_int_flip).
  cbn [combine map filter]. rewrite E1, E2.
  destruct (py_bool_eq_int guess label); cbn [negb length]; lia.
Qed.

(** X8. On a well-formed module, matrix and triple set whose labels are all
    0 or 1, replacing every label by its opposite turns the accuracy [a]
    into [1 - a]. *)
Theorem evaluate_flip_labels (num_user num_question k : nat) (vd : triples)
    (s : EvalEnv) :
  wf_model num_question k (ev_model s) ->
  wf_matrix num_user num_question (ev_train_data s) ->
  wf_triples num_user num_question vd ->
  Forall (fun label => label = 0%Z \/ label = 1%Z) (is_correct vd) ->
  user_id vd <> [] ->
  exists acc acc',
    snd (evaluate vd s) = Ok acc /\
    snd (evaluate (flip_labels vd) s) = Ok acc' /\
    acc + acc' = 1.
Proof.
  intros Hm Hd Hv Hl Hne.
  assert (Hv' : wf_triples num_user num_question (flip_labels vd)).
  { destruct Hv as (Lq & Ll & Vu & Vq). unfold wf_triples, flip_labels. simpl.
    rewrite length_map. auto. }
  rewrite (evaluate_ok _ _ _ _ _ Hm Hd Hv), (evaluate_ok _ _ _ _ _ Hm Hd Hv').
  destruct Hv as (Lq & Ll & Vu & Vq).
  pose proof (correct_count_flip _ _ _ _ _ (user_id vd) Hm Hd
                (question_id vd) (is_correct vd) Lq Ll Vu Vq Hl) as Hsum.
  fold (correct_count (ev_model s) (ev_train_data s) vd) in Hsum.
  change (length (filter _ (combine _ (map _ (is_correct vd)))))
    with (correct_count (ev_model s) (ev_train_data s) (flip_labels vd)) in Hsum.
  change (user_id (flip_labels vd)) with (user_id vd). cbn [snd].
  destruct (user_id vd) as [| u us] eqn:Eu; [congruence |].
  cbn [py_div]. do 2 eexists. split; [reflexivity |]. split; [reflexivity |].
  apply (f_equal INR) in Hsum. rewrite plus_INR in Hsum.
  assert (Hn : 0 < INR (length (u :: us))) by (apply lt_0_INR; simpl; lia).
  rewrite <- Rdiv_plus_distr, Hsum. apply Rdiv_diag. lra.
Qed.

Lemma evaluate_flip_labels_witness :
  exists acc acc',
    snd (evaluate one_triple (mkEvalEnv zero_model [[0]])) = Ok acc /\
    snd (evaluate (mkTriples [0%Z] [0%Z] [0%Z]) (mkEvalEnv zero_model [[0]]))
      = Ok acc' /\
    acc + acc' = 1.
Proof.
  apply (evaluate_flip_labels 1 1 1 one_triple (mkEvalEnv zero_model [[0]])).
  - solve_wf.
  - unfold wf_matrix. simpl. repeat constructor.
  - exact one_triple_wf.
  - constructor; [right; reflexivity | constructor].
  - discriminate.
Defined.

(** ** What [train] leaves behind *)

Lemma keeps_bind {A B : Type} (c : M TrainEnv A) (f : A -> M TrainEnv B) :
  keeps_matrices c -> (forall a, keeps_matrices (f a)) ->
  keeps_matrices (bind c f).
Proof.
  intros Hc Hf s. unfold bind. specialize (Hc s).
  destruct (c s) as [s1 [a | e]]; simpl in Hc.
  - destruct (Hf a s1) as [H1 H2]. destruct Hc as [H3 H4]. split; congruence.
  - exact Hc.
Qed.

Lemma keeps_ret {A : Type} (a : A) : keeps_matrices (ret a).
Proof. intros s. split; reflexivity. Qed.

Lemma keeps_lift {A : Type} (r : result A) : keeps_matrices (lift r).
Proof. intros s. split; reflexivity. Qed.

Lemma keeps_gets {A : Type} (f : TrainEnv -> A) : keeps_matrices (gets f).
Proof. intros s. split; reflexivity. Qed.

Lemma keeps_call_evaluate (vd : triples) : keeps_matrices (call_evaluate vd).
Proof.
  intros s. unfold call_evaluate. rewrite evaluate_unfold. split; reflexivity.
Qed.

Lemma keeps_optimizer_step (opt : SGD) (grads : Grads) :
  keeps_matrices (optimizer_step opt grads).
Proof. intros s. split; reflexivity. Qed.

Lemma keeps_model_train : keeps_matrices model_train.
Proof. intros s. split; reflexivity. Qed.

Create HintDb keeps.
#[local] Hint Resolve keeps_ret keeps_lift keeps_gets keeps_call_evaluate
  keeps_optimizer_step keeps_model_train : keeps.

Ltac keeps_step :=
  repeat (apply keeps_bind; [auto with keeps | intros ?]); auto with keeps.

Section TrainEffects.

Variable backward : AutoEncoder -> list R -> list bool -> R -> Grads.

Lemma keeps_train_step (opt : SGD) (lamb : R) (user : nat) (tl : R) :
  keeps_matrices (train_step backward opt lamb user tl).
Proof.
  unfold train_step. keeps_step.
Qed.

Lemma keeps_user_loop (opt : SGD) (lamb : R) (users : list nat) :
  forall tl, keeps_matrices (user_loop backward opt lamb users tl).
Proof.
  induction users as [| u users IH]; intros tl; simpl.
  - apply keeps_ret.
  - apply keeps_bind; [apply keeps_train_step | exact IH].
Qed.

Lemma keeps_run_epoch (opt : SGD) (lamb : R) (vd : triples) (n : nat)
    (loc : TrainLocals) :
  keeps_matrices (run_epoch backward opt lamb vd n loc).
Proof.
  unfold run_epoch. apply keeps_bind; [apply keeps_model_train | intros _].
  apply keeps_bind; [apply keeps_user_loop | intros tl].
  keeps_step.
Qed.

Lemma keeps_epoch_loop (optimizer_final : SGD) (lamb : R) (vd : triples)
    (n : nat) (epochs : list Z) :
  forall loc,
    keeps_matrices (epoch_loop backward optimizer_final lamb vd n epochs loc).
Proof.
  induction epochs as [| e epochs IH]; intros loc; simpl.
  - apply keeps_ret.
  - apply keeps_bind; [apply keeps_run_epoch | exact IH].
Qed.

(** X9. [train] never writes to the two matrices it is given: whatever the
    arguments and whether it completes or raises, the raw and the zero-filled
    matrix are afterwards what they were (the target it masks is a copy of
    the row). *)
Theorem train_keeps_matrices (lr lamb : R) (vd : triples) (num_epoch : Z)
    (s : TrainEnv) :
  tr_train_data (fst (train backward lr lamb vd num_epoch s))
    = tr_train_data s /\
  tr_zero_train_data (fst (train backward lr lamb vd num_epoch s))
    = tr_zero_train_data s.
Proof.
  revert s. change (keeps_matrices (train backward lr lamb vd num_epoch)).
  unfold train. keeps_step. apply keeps_epoch_loop.
Qed.

Lemma call_evaluate_mode (vd : triples) (s s' : TrainEnv) (r : result R) :
  call_evaluate vd s = (s', r) -> training (tr_model s') = false.
Proof.
  unfold call_evaluate. rewrite evaluate_unfold. intros E.
  inversion E; subst. reflexivity.
Qed.

Lemma run_epoch_mode (opt : SGD) (lamb : R) (vd : triples) (n : nat)
    (loc loc' : TrainLocals) (s s' : TrainEnv) :
  run_epoch backward opt lamb vd n loc s = (s', Ok loc') ->
  training (tr_model s') = false.
Proof.
  unfold run_epoch. intros E.
  apply bind_inv_ok in E. destruct E as (s1 & [] & _ & E).
  apply bind_inv_ok in E. destruct E as (s2 & tl & _ & E).
  apply bind_inv_ok in E. destruct E as (s3 & acc & E3 & E).
  unfold ret in E. inversion E; subst. eapply call_evaluate_mode; eauto.
Qed.

Lemma epoch_loop_mode (optimizer_final : SGD) (lamb : R) (vd : triples)
    (n : nat) (epochs : list Z) :
  forall (loc loc' : TrainLocals) (s s' : TrainEnv),
    epoch_loop backward optimizer_final lamb vd n epochs loc s = (s', Ok loc') ->
    epochs <> [] -> training (tr_model s') = false.
Proof.
  induction epochs as [| e epochs IH]; intros loc loc' s s' E Hne;
    [congruence |].
  cbn [epoch_loop] in E. apply bind_inv_ok in E.
  destruct E as (s1 & loc1 & E1 & E). unfold epoch_body in E1.
  apply run_epoch_mode in E1. destruct epochs as [| e' epochs].
  - unfold epoch_loop, ret in E. inversion E; subst. exact E1.
  - eapply IH; [exact E | discriminate].
Qed.

(** X10. A call of [train] that completes leaves the module in evaluation
    mode: the last thing that touched the mode flag is the [model.eval()] of
    the validation pass that closes the last epoch. *)
Theorem train_leaves_eval_mode (lr lamb : R) (vd : triples) (num_epoch : Z)
    (s s' : TrainEnv) (series : list R * list R) :
  train backward lr lamb vd num_epoch s = (s', Ok series) ->
  training (tr_model s') = false.
Proof.
  unfold train, bind, lift, gets, ret. intros E.
  destruct (SGD_init lr) as [opt |]; [| discriminate].
  destruct (SGD_init (lr * 0.5)) as [optimizer_final |]; [| discriminate].
  destruct (epoch_loop backward optimizer_final lamb vd
              (length (tr_train_data s)) (range num_epoch)
              (mkTrainLocals opt [] []) s) as [s1 [loc |]] eqn:El;
    [| discriminate].
  destruct (py_index (valid_acc_lst loc) (-1)) as [final |] eqn:Ep;
    [| discriminate].
  inversion E; subst. eapply epoch_loop_mode; [exact El |].
  intros Hnil. rewrite Hnil in El. unfold epoch_loop, ret in El.
  inversion El; subst. simpl in Ep. now rewrite py_index_nil in Ep.
Qed.

End TrainEffects.

(** ** Runs of [train] on well-formed arguments *)

Section TrainCompletes.

Variable backward : AutoEncoder -> list R -> list bool -> R -> Grads.
Variables num_user num_question k : nat.
Hypothesis Hback : shape_preserving num_question k backward.

Lemma epoch_loop_ok_wf (optimizer_final : SGD) (lamb : R) (vd : triples)
    (epochs : list Z) :
  forall (loc : TrainLocals) (s : TrainEnv),
    wf_env num_user num_question k s ->
    wf_triples num_user num_question vd -> user_id vd <> [] ->
    exists s' loc',
      epoch_loop backward optimizer_final lamb vd num_user epochs loc s
      = (s', Ok loc') /\
      wf_env num_user num_question k s'.
Proof.
  induction epochs as [| e epochs IH]; intros loc s Hs Hv Hne.
  - exists s, loc. split; [reflexivity | exact Hs].
  - cbn [epoch_loop]. unfold epoch_body.
    destruct (run_epoch_ok backward num_user num_question k Hback
                (if (e >=? 40)%Z then optimizer_final else optimizer loc)
                lamb vd loc s Hs Hv Hne) as (s1 & loc1 & E1 & Hs1).
    rewrite (bind_ok _ _ _ _ _ E1). now apply IH.
Qed.

Lemma train_completes (lr lamb : R) (vd : triples) (num_epoch : Z)
    (s : TrainEnv) :
  0 <= lr -> (1 <= num_epoch)%Z ->
  wf_env num_user num_question k s ->
  wf_triples num_user num_question vd -> user_id vd <> [] ->
  exists s' series,
    train backward lr lamb vd num_epoch s = (s', Ok series) /\
    wf_env num_user num_question k s'.
Proof.
  intros Hlr Hn Hs Hv Hne.
  assert (Hnu : length (tr_train_data s) = num_user)
    by (destruct Hs as (_ & [Hl _] & _); exact Hl).
  destruct (epoch_loop_ok_wf (mkSGD (lr * 0.5)) lamb vd (range num_epoch)
              (mkTrainLocals (mkSGD lr) [] []) s Hs Hv Hne)
    as (s1 & loc & El & Hs1).
  pose proof (epoch_loop_lengths _ _ _ _ _ _ _ _ _ _ El) as [_ La].
  rewrite range_length in La. simpl in La.
  destruct (py_index_ok (valid_acc_lst loc) (-1)) as (final & Ep & _).
  { unfold valid_index. lia. }
  exists s1, (valid_acc_lst loc, train_loss_lst loc).
  split; [| exact Hs1].
  unfold train, bind, lift, gets, ret.
  rewrite !SGD_init_ok by lra. rewrite Hnu, El, Ep. reflexivity.
Qed.

(** X12. With a validation set that holds no triple, [train] on otherwise
    well-formed arguments and [num_epoch >= 1] does not complete, but it has
    trained: the first epoch runs the update of every user at the rate [lr],
    the validation pass that follows raises [ZeroDivisionError], and the
    module is left with the parameters those updates produced, in evaluation
    mode. *)
Theorem train_empty_validation (lr lamb : R) (vd : triples) (num_epoch : Z)
    (s : TrainEnv) :
  0 <= lr -> (1 <= num_epoch)%Z ->
  wf_env num_user num_question k s ->
  user_id vd = [] ->
  exists s1 train_loss,
    user_loop backward (mkSGD lr) lamb (seq 0 num_user) 0
      (mkTrainEnv (set_training true (tr_model s))
         (tr_train_data s) (tr_zero_train_data s))
    = (s1, Ok train_loss) /\
    train backward lr lamb vd num_epoch s
    = (mkTrainEnv (set_training false (tr_model s1))
         (tr_train_data s1) (tr_zero_train_data s1),
       Raise ZeroDivisionError).
Proof.
  intros Hlr Hn Hs Hnil.
  assert (Hnu : length (tr_train_data s) = num_user)
    by (destruct Hs as (_ & [Hl _] & _); exact Hl).
  assert (Hs0 : wf_env num_user num_question k
                  (mkTrainEnv (set_training true (tr_model s))
                     (tr_train_data s) (tr_zero_train_data s))).
  { destruct Hs as (Hm & Hraw & Hzero).
    split; [| split]; simpl; [exact Hm | exact Hraw | exact Hzero]. }
  destruct (user_loop_ok backward num_user num_question k Hback (mkSGD lr)
              lamb (seq 0 num_user) 0 _ Hs0) as (s1 & tl & E1 & _).
  { apply Forall_forall. intros u Hu. apply in_seq in Hu. lia. }
  exists s1, tl. split; [exact E1 |].
  unfold train, bind, lift, gets. rewrite !SGD_init_ok by lra. rewrite Hnu.
  unfold range. replace (Z.to_nat num_epoch) with (S (Z.to_nat num_epoch - 1))
    by lia.
  cbn [seq map epoch_loop]. unfold bind, epoch_body.
  cbn [Z.geb Z.of_nat Z.compare optimizer].
  unfold run_epoch, bind, model_train, modify. rewrite E1.
  unfold call_evaluate. rewrite evaluate_unfold, Hnil. reflexivity.
Qed.

End TrainCompletes.

Lemma call_evaluate_range (vd : triples) (s s' : TrainEnv) (acc : R) :
  call_evaluate vd s = (s', Ok acc) -> 0 <= acc <= 1.
Proof.
  unfold call_evaluate. rewrite evaluate_unfold. intros E.
  inversion E as [[Es Ea]]. clear E Es.
  destruct (evaluate_loop vd 0 (user_id vd) (0%nat, 0%nat) _)
    as [s1 [[correct total] | e]] eqn:El; simpl in Ea; [| discriminate].
  apply evaluate_loop_counters in El. destruct El as [Et Ec]. simpl in Et, Ec.
  subst total. destruct (user_id vd) as [| u us]; [discriminate |].
  change (Ok (INR correct / INR (length (u :: us))) = Ok acc) in Ea.
  injection Ea as <-.
  exact (ratio_unit_interval correct (length (u :: us)) (proj2 Ec)
           (Nat.lt_0_succ _)).
Qed.

Lemma train_series_lengths
    (backward : AutoEncoder -> list R -> list bool -> R -> Grads)
    (lr lamb : R) (vd : triples) (num_epoch : Z) (s s' : TrainEnv)
    (accs losses : list R) :
  train backward lr lamb vd num_epoch s = (s', Ok (accs, losses)) ->
  length accs = Z.to_nat num_epoch /\ length losses = Z.to_nat num_epoch.
Proof.
  intros E. unfold train, bind, lift, gets, ret in E.
  destruct (SGD_init lr) as [opt |]; [| discriminate].
  destruct (SGD_init (lr * 0.5)) as [optimizer_final |]; [| discriminate].
  destruct (epoch_loop backward optimizer_final lamb vd
              (length (tr_train_data s)) (range num_epoch)
              (mkTrainLocals opt [] []) s) as [s1 [loc |]] eqn:El;
    [| discriminate].
  destruct (py_index (valid_acc_lst loc) (-1)) as [final |]; [| discriminate].
  inversion E; subst. apply epoch_loop_lengths in El.
  rewrite range_length in El. simpl in El. tauto.
Qed.

Section TrainMetrics.

Variable backward : AutoEncoder -> list R -> list bool -> R -> Grads.

Lemma train_step_loss_nonneg (opt : SGD) (lamb : R) (user : nat) (tl tl' : R)
    (s s' : TrainEnv) :
  0 <= lamb ->
  train_step backward opt lamb user tl s = (s', Ok tl') -> tl <= tl'.
Proof.
  intros Hl E.
  destruct (train_step_inv backward _ _ _ _ _ _ _ E)
    as (inputs & raw & output & target & loss & _ & _ & _ & _ & El & -> & _).
  unfold sample_loss in El.
  destruct (tensor_sub output target) as [diff |]; [| discriminate].
  simpl in El. inversion El; subst loss.
  pose proof (sum_sq_nonneg diff). pose proof (get_weight_norm_nonneg (tr_model s)).
  assert (0 <= lamb / 2 * get_weight_norm (tr_model s)) by nra. lra.
Qed.

Lemma user_loop_loss_nonneg (opt : SGD) (lamb : R) (users : list nat) :
  forall (tl tl' : R) (s s' : TrainEnv),
    0 <= lamb ->
    user_loop backward opt lamb users tl s = (s', Ok tl') -> tl <= tl'.
Proof.
  induction users as [| u users IH]; intros tl tl' s s' Hl E.
  - unfold user_loop, ret in E. inversion E; subst. lra.
  - cbn [user_loop] in E. apply bind_inv_ok in E.
    destruct E as (s1 & tl1 & E1 & E).
    apply train_step_loss_nonneg in E1; [| exact Hl].
    apply IH in E; [| exact Hl]. lra.
Qed.

Lemma run_epoch_metrics (opt : SGD) (lamb : R) (vd : triples) (n : nat)
    (loc loc' : TrainLocals) (s s' : TrainEnv) :
  run_epoch backward opt lamb vd n loc s = (s', Ok loc') ->
  exists train_loss valid_acc,
    loc' = mkTrainLocals opt (train_loss_lst loc ++ [train_loss])
             (valid_acc_lst loc ++ [valid_acc]) /\
    0 <= valid_acc <= 1 /\ (0 <= lamb -> 0 <= train_loss).
Proof.
  unfold run_epoch. intros E.
  apply bind_inv_ok in E. destruct E as (s1 & [] & _ & E).
  apply bind_inv_ok in E. destruct E as (s2 & train_loss & E2 & E).
  apply bind_inv_ok in E. destruct E as (s3 & valid_acc & E3 & E).
  unfold ret in E. inversion E; subst. exists train_loss, valid_acc.
  split; [reflexivity |]. split.
  - eapply call_evaluate_range; eauto.
  - intros Hl. eapply user_loop_loss_nonneg; eauto.
Qed.

Lemma epoch_loop_metrics (optimizer_final : SGD) (lamb : R) (vd : triples)
    (n : nat) (epochs : list Z) :
  forall (loc loc' : TrainLocals) (s s' : TrainEnv),
    epoch_loop backward optimizer_final lamb vd n epochs loc s = (s', Ok loc') ->
    Forall (fun a => 0 <= a <= 1) (valid_acc_lst loc) ->
    (0 <= lamb -> Forall (fun l => 0 <= l) (train_loss_lst loc)) ->
    Forall (fun a => 0 <= a <= 1) (valid_acc_lst loc') /\
    (0 <= lamb -> Forall (fun l => 0 <= l) (train_loss_lst loc')).
Proof.
  induction epochs as [| e epochs IH]; intros loc loc' s s' E Ha Hl.
  - unfold epoch_loop, ret in E. inversion E; subst. auto.
  - cbn [epoch_loop] in E. apply bind_inv_ok in E.
    destruct E as (s1 & loc1 & E1 & E). unfold epoch_body in E1.
    apply run_epoch_metrics in E1.
    destruct E1 as (tl & acc & -> & Hacc & Htl).
    apply (IH _ _ _ _ E); simpl.
    + apply Forall_app. split; [exact Ha |].
      constructor; [exact Hacc | constructor].
    + intros H0. apply Forall_app. split; [auto |].
      constructor; [auto | constructor].
Qed.

(** X11. The two series a completed [train] hands to the plot: every
    validation accuracy lies between 0 and 1, and with [lamb >= 0] every
    epoch's training loss is at least 0. *)
Theorem train_metric_ranges (lr lamb : R) (vd : triples) (num_epoch : Z)
    (s s' : TrainEnv) (accs losses : list R) :
  train backward lr lamb vd num_epoch s = (s', Ok (accs, losses)) ->
  Forall (fun a => 0 <= a <= 1) accs /\
  (0 <= lamb -> Forall (fun l => 0 <= l) losses).
Proof.
  unfold train, bind, lift, gets, ret. intros E.
  destruct (SGD_init lr) as [opt |]; [| discriminate].
  destruct (SGD_init (lr * 0.5)) as [optimizer_final |]; [| discriminate].
  destruct (epoch_loop backward optimizer_final lamb vd
              (length (tr_train_data s)) (range num_epoch)
              (mkTrainLocals opt [] []) s) as [s1 [loc |]] eqn:El;
    [| discriminate].
  destruct (py_index (valid_acc_lst loc) (-1)) as [final |]; [| discriminate].
  inversion E; subst.
  apply (epoch_loop_metrics _ _ _ _ _ _ _ _ _ El); simpl; constructor.
Qed.

End TrainMetrics.

(** ** Rows without an answer, and the matrices of [load_data] *)

Lemma observed_sq_err_all_masked (output inputs : list R) :
  forall nan_mask : list bool,
    Forall (fun b => b = true) nan_mask ->
    observed_sq_err output inputs nan_mask = 0.
Proof.
  revert inputs. induction output as [| o output IH];
    intros [| t inputs] [| b mask] Hm; simpl; try reflexivity.
  inversion Hm as [| ? ? Hb Hm']; subst. rewrite IH by exact Hm'. lra.
Qed.

Lemma observed_sq_err_raw (output : list R) :
  forall raw : list cell,
    observed_sq_err output (map zero_fill_cell raw) (map isnan raw)
    = raw_sq_err output raw.
Proof.
  induction output as [| o output IH]; intros [| c raw]; simpl;
    try reflexivity.
  rewrite IH. destruct c; reflexivity.
Qed.

Lemma py_index_nat {A : Type} (t : list A) (i : nat) (a : A) :
  nth_error t i = Some a -> py_index t (Z.of_nat i) = Ok a.
Proof.
  intros E. assert (Hi : (i < length t)%nat)
    by (apply nth_error_Some; congruence).
  unfold py_index. cbv zeta.
  destruct (Z.ltb_spec (Z.of_nat i) 0); [lia |].
  destruct (Z.leb_spec 0 (Z.of_nat i)); [| lia].
  destruct (Z.ltb_spec (Z.of_nat i) (Z.of_nat (length t))); [| lia].
  simpl. now rewrite Nat2Z.id, E.
Qed.

Section TrainStepRows.

Variable backward : AutoEncoder -> list R -> list bool -> R -> Grads.

(** X13. A training step on a user who answered no question (every cell of
    the raw row is [nan]) adds no reconstruction error to the running loss,
    only the penalty [lamb / 2 * get_weight_norm()]. *)
Theorem train_step_unanswered_row (opt : SGD) (lamb : R) (user : nat)
    (tl tl' : R) (s s' : TrainEnv) (raw : list cell) :
  train_step backward opt lamb user tl s = (s', Ok tl') ->
  py_index (tr_train_data s) (Z.of_nat user) = Ok raw ->
  Forall (fun c => c = None) raw ->
  tl' = tl + lamb / 2 * get_weight_norm (tr_model s).
Proof.
  intros E Er Hnan.
  destruct (train_step_inv backward _ _ _ _ _ _ _ E)
    as (inputs & raw' & output & target & loss & _ & Er' & _ & Et & El & -> & _).
  rewrite Er in Er'. inversion Er'; subst raw'.
  destruct (masked_sq_err _ _ _ _ Et) as (diff & Ed & Es).
  unfold sample_loss in El. rewrite Ed in El. simpl in El.
  inversion El; subst loss. rewrite Es.
  rewrite observed_sq_err_all_masked; [lra |].
  apply Forall_map. eapply Forall_impl; [| exact Hnan].
  intros c ->. reflexivity.
Qed.

(** X14. On the two matrices [load_data] returns and a module of their
    width, a training step for an existing user completes, and the loss it
    adds is the squared error of the reconstruction against the answers the
    user gave, plus the penalty: the zero the loader wrote into a missing
    cell never enters the loss. *)
Theorem load_data_train_step (num_user num_question k : nat)
    (train_matrix : list (list cell)) (valid_data test_data : triples)
    (model : AutoEncoder) (opt : SGD) (lamb : R) (user : nat) (tl : R) :
  wf_matrix num_user num_question train_matrix ->
  wf_model num_question k model ->
  (user < num_user)%nat ->
  let '(zero_train_matrix, train_matrix', _, _) :=
    load_data train_matrix valid_data test_data in
  exists s' raw output,
    nth_error train_matrix user = Some raw /\
    forward model (map zero_fill_cell raw) = Ok output /\
    train_step backward opt lamb user tl
      (mkTrainEnv model train_matrix' zero_train_matrix)
    = (s', Ok (tl + (raw_sq_err output raw +
                     lamb / 2 * get_weight_norm model))).
Proof.
  intros [Hrows Hcols] Hm Hu. unfold load_data. cbv zeta.
  destruct (nth_error train_matrix user) as [raw |] eqn:En.
  2: { apply nth_error_None in En. lia. }
  assert (Lraw : length raw = num_question).
  { rewrite Forall_forall in Hcols. apply Hcols. eapply nth_error_In; eauto. }
  assert (Li : length (map zero_fill_cell raw) = num_question)
    by now rewrite length_map.
  destruct (forward_ok _ _ _ _ Hm Li) as [Ef Lo].
  set (output := three_sigmoid_layers model (map zero_fill_cell raw)) in *.
  destruct (index_put_total (map zero_fill_cell raw) output (map isnan raw))
    as [target Et]; [congruence | now rewrite !length_map |].
  destruct (masked_sq_err _ _ _ _ Et) as (diff & Ed & Es).
  rewrite observed_sq_err_raw in Es.
  eexists. exists raw, output. split; [reflexivity |]. split; [exact Ef |].
  unfold train_step, bind, gets, lift, ret, optimizer_step, modify.
  cbn [tr_zero_train_data tr_train_data tr_model].
  rewrite (py_index_nat _ _ _ En).
  rewrite (py_index_nat (map (map zero_fill_cell) train_matrix) user
             (map zero_fill_cell raw))
    by (rewrite nth_error_map, En; reflexivity).
  rewrite Ef, Et. unfold sample_loss. rewrite Ed. simpl. rewrite Es.
  reflexivity.
Qed.

End TrainStepRows.

(** ** [main] *)

Lemma zero_fill_wf (num_user num_question : nat) (m : list (list cell)) :
  wf_matrix num_user num_question m ->
  wf_matrix num_user num_question (map (map zero_fill_cell) m).
Proof.
  intros [Hr Hc]. split; [now rewrite length_map |].
  apply Forall_map. eapply Forall_impl; [| exact Hc].
  intros row Hrow. simpl. now rewrite length_map.
Qed.

Lemma num_columns_wf {A : Type} (num_user num_question : nat)
    (m : list (list A)) :
  wf_matrix num_user num_question m -> (0 < num_user)%nat ->
  num_columns m = num_question.
Proof.
  intros [Hr Hc] Hpos. destruct m as [| row m]; [simpl in Hr; lia |].
  inversion Hc; subst. reflexivity.
Qed.

Section MainRuns.

Variable backward : AutoEncoder -> list R -> list bool -> R -> Grads.
Variable new_model : nat -> nat -> AutoEncoder.

(** X15. [main] on a matrix with at least one user, a well-formed non-empty
    validation set and a test set whose ids exist: the training on the
    loaded matrices completes and has run its 80 epochs (both series hold 80
    entries); [main] then evaluates the trained module on the test set and
    leaves it in evaluation mode.  With a test triple it reports the number
    of correct test triples over their number, a value between 0 and 1;
    with none it ends in [ZeroDivisionError], the training done. *)
Theorem main_outcome (num_user num_question : nat)
    (train_matrix : list (list cell)) (valid_data test_data : triples) :
  (forall n k, wf_model n k (new_model n k)) ->
  shape_preserving num_question 50 backward ->
  wf_matrix num_user num_question train_matrix -> (0 < num_user)%nat ->
  wf_triples num_user num_question valid_data -> user_id valid_data <> [] ->
  wf_triples num_user num_question test_data ->
  exists s1 accs losses,
    train backward 0.015 0 valid_data 80
      (mkTrainEnv (new_model num_question 50) train_matrix
         (map (map zero_fill_cell) train_matrix))
    = (s1, Ok (accs, losses)) /\
    length accs = 80%nat /\ length losses = 80%nat /\
    main backward new_model train_matrix valid_data test_data
    = (mkTrainEnv (set_training false (tr_model s1))
         (tr_train_data s1) (tr_zero_train_data s1),
       py_div (correct_count (tr_model s1) (tr_zero_train_data s1) test_data)
         (length (user_id test_data))) /\
    (user_id test_data <> [] ->
     exists acc,
       snd (main backward new_model train_matrix valid_data test_data)
       = Ok acc /\
       acc = INR (correct_count (tr_model s1) (tr_zero_train_data s1)
                    test_data) / INR (length (user_id test_data)) /\
       0 <= acc <= 1) /\
    (user_id test_data = [] ->
     snd (main backward new_model train_matrix valid_data test_data)
     = Raise ZeroDivisionError).
Proof.
  intros Hnew Hback Hmat Hpos Hv Hvne Ht.
  assert (Hs : wf_env num_user num_question 50
                 (mkTrainEnv (new_model num_question 50)
                    train_matrix (map (map zero_fill_cell) train_matrix))).
  { split; [apply Hnew |]. split; [exact Hmat | now apply zero_fill_wf]. }
  destruct (train_completes backward num_user num_question 50 Hback
              0.015 0 valid_data 80 _ ltac:(lra) ltac:(lia) Hs Hv Hvne)
    as (s1 & [accs losses] & Etrain & Hs1).
  destruct (train_series_lengths _ _ _ _ _ _ _ _ _ Etrain) as [La Ll].
  exists s1, accs, losses. split; [exact Etrain |].
  split; [exact La |]. split; [exact Ll |].
  assert (Emain : main backward new_model train_matrix valid_data test_data
                  = (mkTrainEnv (set_training false (tr_model s1))
                       (tr_train_data s1) (tr_zero_train_data s1),
                     py_div (correct_count (tr_model s1)
                               (tr_zero_train_data s1) test_data)
                       (length (user_id test_data)))).
  { unfold main, load_data. cbv zeta.
    rewrite (num_columns_wf _ _ _ Hmat Hpos).
    rewrite (bind_ok _ _ _ _ _ Etrain).
    destruct Hs1 as (Hm1 & Hraw1 & Hzero1). unfold call_evaluate.
    rewrite (evaluate_ok num_user num_question 50 test_data
               (mkEvalEnv (tr_model s1) (tr_zero_train_data s1))
               Hm1 Hzero1 Ht).
    reflexivity. }
  split; [exact Emain |]. rewrite Emain. cbn [snd]. split.
  - intros Hne. destruct Ht as (Lq & Ll' & _).
    pose proof (correct_count_le (tr_model s1) (tr_zero_train_data s1)
                  test_data Lq Ll') as Hc.
    destruct (user_id test_data) as [| u us] eqn:Eu; [congruence |].
    cbn [py_div]. eexists. split; [reflexivity |]. split; [reflexivity |].
    exact (ratio_unit_interval _ (length (u :: us)) Hc (Nat.lt_0_succ _)).
  - intros ->. reflexivity.
Qed.

End MainRuns.

(** ** The order of the triples *)

Lemma filter_length_perm {A : Type} (f : A -> bool) (l l' : list A) :
  Permutation l l' -> length (filter f l) = length (filter f l').
Proof.
  induction 1 as [| x l l' _ IH | x y l | l l' l'' _ IH1 _ IH2]; simpl.
  - reflexivity.
  - destruct (f x); simpl; congruence.
  - destruct (f x), (f y); reflexivity.
  - congruence.
Qed.

(** X16. On a well-formed module and matrix the accuracy does not depend on
    the order of the triples: two well-formed triple sets that hold the same
    (user, question, label) triples, in any order, get the same result. *)
Theorem evaluate_order_irrelevant (num_user num_question k : nat)
    (vd vd' : triples) (s : EvalEnv) :
  wf_model num_question k (ev_model s) ->
  wf_matrix num_user num_question (ev_train_data s) ->
  wf_triples num_user num_question vd ->
  wf_triples num_user num_question vd' ->
  Permutation (triple_list vd) (triple_list vd') ->
  evaluate vd' s = evaluate vd s.
Proof.
  intros Hm Hd Hv Hv' Hp.
  rewrite (evaluate_ok _ _ _ _ _ Hm Hd Hv), (evaluate_ok _ _ _ _ _ Hm Hd Hv').
  f_equal. f_equal.
  - unfold correct_count. symmetry. apply filter_length_perm. exact Hp.
  - apply Permutation_length in Hp. unfold triple_list in Hp.
    destruct Hv as (Lq & Ll & _). destruct Hv' as (Lq' & Ll' & _).
    rewrite !length_combine in Hp. lia.
Qed.

Lemma evaluate_order_irrelevant_witness :
  evaluate (mkTriples [0; 0]%Z [1; 0]%Z [0; 1]%Z)
    (mkEvalEnv two_question_model [[1; 0]])
  = evaluate (mkTriples [0; 0]%Z [0; 1]%Z [1; 0]%Z)
      (mkEvalEnv two_question_model [[1; 0]]).
Proof.
  apply (evaluate_order_irrelevant 1 2 1).
  - solve_wf.
  - unfold wf_matrix. simpl. repeat constructor.
  - unfold wf_triples, valid_index. simpl.
    repeat split; repeat constructor; lia.
  - unfold wf_triples, valid_index. simpl.
    repeat split; repeat constructor; lia.
  - apply perm_swap.
Defined.

(** ** A learning rate of zero *)

Lemma zip_with_sub_zero (a b : list R) :
  length b = length a -> zip_with (fun p dp => p - 0 * dp) a b = a.
Proof.
  revert b. induction a as [| x a IH]; intros [| y b] L; simpl in *;
    try discriminate; [reflexivity |].
  rewrite IH by lia. f_equal. lra.
Qed.

Lemma sgd_linear_zero (n_in n_out : nat) (l d : Linear) :
  wf_linear n_in n_out l -> wf_linear n_in n_out d -> sgd_linear 0 l d = l.
Proof.
  intros (Lw & Fw & Lb) (Ldw & Fdw & Ldb). unfold sgd_linear.
  destruct l as [w b], d as [dw db]. simpl in *. f_equal.
  - subst n_out. clear Lb Ldb b db. revert dw Ldw Fdw.
    induction Fw as [| row w Hrow Fw IH]; intros [| drow dw] Ldw Fdw;
      simpl in *; try discriminate; [reflexivity |].
    inversion Fdw as [| ? ? Hdrow Fdw']; subst.
    rewrite zip_with_sub_zero by congruence. f_equal. apply IH; [lia | exact Fdw'].
  - apply zip_with_sub_zero. congruence.
Qed.

Lemma sgd_update_zero (num_question k : nat) (grads : Grads) (m : AutoEncoder) :
  wf_model num_question k m -> wf_grads num_question k grads ->
  sgd_update 0 grads m = m.
Proof.
  intros (Hg & Hhid & Hh) (Dg & Dhid & Dh). unfold sgd_update.
  rewrite (sgd_linear_zero _ _ _ _ Hg Dg), (sgd_linear_zero _ _ _ _ Hhid Dhid),
    (sgd_linear_zero _ _ _ _ Hh Dh).
  now destruct m.
Qed.

Section ZeroRate.

Variable backward : AutoEncoder -> list R -> list bool -> R -> Grads.
Variables num_user num_question k : nat.
Hypothesis Hback : shape_preserving num_question k backward.

Lemma train_step_zero_rate (lamb : R) (user : nat) (tl tl' : R)
    (s s' : TrainEnv) :
  wf_env num_user num_question k s ->
  train_step backward (mkSGD 0) lamb user tl s = (s', Ok tl') -> s' = s.
Proof.
  intros (Hm & Hraw & Hzero) E.
  destruct (train_step_inv backward _ _ _ _ _ _ _ E)
    as (inputs & raw & output & target & loss & Ei & Er & _ & _ & _ & _ & ->).
  pose proof (py_index_length _ _ _ _ _ Hzero Ei) as Li.
  pose proof (py_index_length _ _ _ _ _ Hraw Er) as Lr.
  simpl. rewrite (sgd_update_zero num_question k); [now destruct s | exact Hm |].
  apply Hback; [exact Hm | exact Li | now rewrite length_map].
Qed.

Lemma user_loop_zero_rate (lamb : R) (users : list nat) :
  forall (tl tl' : R) (s s' : TrainEnv),
    wf_env num_user num_question k s ->
    user_loop backward (mkSGD 0) lamb users tl s = (s', Ok tl') -> s' = s.
Proof.
  induction users as [| u users IH]; intros tl tl' s s' Hs E.
  - unfold user_loop, ret in E. now inversion E.
  - cbn [user_loop] in E. apply bind_inv_ok in E.
    destruct E as (s1 & tl1 & E1 & E).
    apply train_step_zero_rate in E1; [| exact Hs]. subst s1.
    now apply IH in E.
Qed.

Lemma run_epoch_zero_rate (lamb : R) (vd : triples) (n : nat)
    (loc loc' : TrainLocals) (s s' : TrainEnv) :
  wf_env num_user num_question k s ->
  run_epoch backward (mkSGD 0) lamb vd n loc s = (s', Ok loc') ->
  same_parameters (tr_model s) (tr_model s') /\
  wf_env num_user num_question k s'.
Proof.
  intros Hs E. unfold run_epoch in E.
  apply bind_inv_ok in E. destruct E as (s1 & [] & E1 & E).
  unfold model_train, modify in E1. inversion E1; subst s1. clear E1.
  apply bind_inv_ok in E. destruct E as (s2 & tl & E2 & E).
  assert (Hs1 : wf_env num_user num_question k
                  (mkTrainEnv (set_training true (tr_model s))
                     (tr_train_data s) (tr_zero_train_data s))).
  { destruct Hs as (Hm & Hraw & Hzero).
    split; [| split]; simpl; [exact Hm | exact Hraw | exact Hzero]. }
  apply user_loop_zero_rate in E2; [| exact Hs1]. subst s2.
  apply bind_inv_ok in E. destruct E as (s3 & acc & E3 & E).
  unfold ret in E. inversion E; subst. clear E.
  unfold call_evaluate in E3. rewrite evaluate_unfold in E3.
  inversion E3; subst. simpl. split.
  - unfold same_parameters. simpl. auto.
  - exact Hs1.
Qed.

Lemma epoch_loop_zero_rate (lamb : R) (vd : triples) (n : nat)
    (epochs : list Z) :
  forall (loc loc' : TrainLocals) (s s' : TrainEnv),
    wf_env num_user num_question k s ->
    optimizer loc = mkSGD 0 ->
    epoch_loop backward (mkSGD 0) lamb vd n epochs loc s = (s', Ok loc') ->
    same_parameters (tr_model s) (tr_model s').
Proof.
  induction epochs as [| e epochs IH]; intros loc loc' s s' Hs Hopt E.
  - unfold epoch_loop, ret in E. inversion E; subst.
    unfold same_parameters. auto.
  - cbn [epoch_loop] in E. apply bind_inv_ok in E.
    destruct E as (s1 & loc1 & E1 & E). unfold epoch_body in E1.
    rewrite Hopt in E1.
    replace (if (e >=? 40)%Z then mkSGD 0 else mkSGD 0) with (mkSGD 0) in E1
      by (destruct (e >=? 40)%Z; reflexivity).
    pose proof (run_epoch_locals _ _ _ _ _ _ _ _ _ E1) as (tl & acc & Eloc).
    apply run_epoch_zero_rate in E1; [| exact Hs].
    destruct E1 as [(Eg & Ehid & Eh) Hs1].
    apply IH in E; [| exact Hs1 | subst loc1; reflexivity].
    destruct E as (Eg' & Ehid' & Eh'). unfold same_parameters.
    repeat split; congruence.
Qed.

(** X17. With the learning rate 0 a completed [train] has changed no weight
    and no bias of the module (on well-formed arguments, the gradients
    having the shape of their parameters). *)
Theorem train_zero_rate (lamb : R) (vd : triples) (num_epoch : Z)
    (s s' : TrainEnv) (series : list R * list R) :
  wf_env num_user num_question k s ->
  train backward 0 lamb vd num_epoch s = (s', Ok series) ->
  same_parameters (tr_model s) (tr_model s').
Proof.
  intros Hs E. unfold train, bind, lift, gets, ret in E.
  rewrite SGD_init_ok in E by lra.
  replace (0 * 0.5) with 0 in E by lra. rewrite SGD_init_ok in E by lra.
  destruct (epoch_loop backward (mkSGD 0) lamb vd (length (tr_train_data s))
              (range num_epoch) (mkTrainLocals (mkSGD 0) [] []) s)
    as [s1 [loc |]] eqn:El; [| discriminate].
  destruct (py_index (valid_acc_lst loc) (-1)) as [final |]; [| discriminate].
  inversion E; subst. eapply epoch_loop_zero_rate; [exact Hs | | exact El].
  reflexivity.
Qed.

End ZeroRate.

(** ** The further properties on concrete arguments *)

Lemma zeros_linear_wf (n_in n_out : nat) :
  wf_linear n_in n_out
    (mkLinear (repeat (repeat 0 n_in) n_out) (repeat 0 n_out)).
Proof.
  unfold wf_linear. simpl. rewrite !repeat_length.
  split; [reflexivity |]. split; [| reflexivity].
  apply Forall_forall. intros row Hrow. apply repeat_spec in Hrow. subst row.
  apply repeat_length.
Qed.

Lemma zeros_model_wf (num_question k : nat) :
  wf_model num_question k (zeros_model num_question k).
Proof. split; [| split]; apply zeros_linear_wf. Qed.

Lemma unanswered_env_wf : wf_env 1 1 1 unanswered_env.
Proof.
  split; [solve_wf |]. split; unfold wf_matrix; simpl; repeat constructor.
Qed.

Lemma train_leaves_eval_mode_witness :
  exists s' series,
    train backprop 0.015 0 one_triple 1 one_user_env = (s', Ok series) /\
    training (tr_model s') = false.
Proof.
  destruct (train_completes backprop 1 1 1 (backprop_shape 1 1) 0.015 0
              one_triple 1 one_user_env) as (s' & series & E & _);
    [lra | lia | exact one_user_env_wf | exact one_triple_wf | discriminate |].
  exists s', series. split; [exact E |].
  exact (train_leaves_eval_mode backprop _ _ _ _ _ _ _ E).
Defined.

Lemma train_metric_ranges_witness :
  exists s' accs losses,
    train backprop 0.015 0 one_triple 2 one_user_env = (s', Ok (accs, losses)) /\
    Forall (fun a => 0 <= a <= 1) accs /\
    Forall (fun l => 0 <= l) losses.
Proof.
  destruct (train_completes backprop 1 1 1 (backprop_shape 1 1) 0.015 0
              one_triple 2 one_user_env) as (s' & [accs losses] & E & _);
    [lra | lia | exact one_user_env_wf | exact one_triple_wf | discriminate |].
  exists s', accs, losses. split; [exact E |].
  destruct (train_metric_ranges backprop _ _ _ _ _ _ _ _ E) as [Ha Hl].
  split; [exact Ha | apply Hl; lra].
Defined.

Lemma first_step_bias :
  bias (h (sgd_update 0.015 (backprop zero_model [1] [false] 0)
             (set_training true zero_model))) = [0.00375].
Proof.
  unfold sgd_update, backprop, through_sigmoid, affine, dotR, sum_list.
  simpl. f_equal.
  replace (0 * sigmoid (0 * sigmoid (0 * 1 + 0 + 0) + 0 + 0) + 0 + 0)
    with 0 by ring.
  rewrite sigmoid_0. lra.
Qed.

Lemma train_empty_validation_witness :
  exists s1 train_loss,
    user_loop backprop (mkSGD 0.015) 0 (seq 0 1) 0
      (mkTrainEnv (set_training true zero_model) [[Some 1]] [[1]])
    = (s1, Ok train_loss) /\
    train backprop 0.015 0 (mkTriples [] [] []) 3 one_user_env
    = (mkTrainEnv (set_training false (tr_model s1))
         (tr_train_data s1) (tr_zero_train_data s1),
       Raise ZeroDivisionError) /\
    bias (h zero_model) = [0] /\ bias (h (tr_model s1)) = [0.00375].
Proof.
  destruct (train_empty_validation backprop 1 1 1 (backprop_shape 1 1) 0.015 0
              (mkTriples [] [] []) 3 one_user_env)
    as (s1 & tl & Eloop & Etrain);
    [lra | lia | exact one_user_env_wf | reflexivity |].
  exists s1, tl. split; [exact Eloop |]. split; [exact Etrain |].
  split; [reflexivity |].
  cbn [seq user_loop] in Eloop. apply bind_inv_ok in Eloop.
  destruct Eloop as (s2 & tl2 & Estep & Eret).
  unfold ret in Eret. inversion Eret; subst s2 tl2.
  destruct (train_step_inv backprop _ _ _ _ _ _ _ Estep)
    as (inputs & raw & output & target & loss & Ei & Er & _ & _ & _ & _ & Es).
  change (Ok [1] = Ok inputs) in Ei. change (Ok [Some 1] = Ok raw) in Er.
  inversion Ei; inversion Er; subst inputs raw. rewrite Es.
  exact first_step_bias.
Defined.

Lemma train_step_unanswered_row_witness :
  exists s' tl',
    train_step backprop (mkSGD 0.015) 0.5 0 0 unanswered_env = (s', Ok tl') /\
    tl' = 0 + 0.5 / 2 * get_weight_norm zero_model.
Proof.
  destruct (train_step_ok backprop 1 1 1 (backprop_shape 1 1) (mkSGD 0.015)
              0.5 0 0 unanswered_env unanswered_env_wf) as (s' & tl' & E & _);
    [lia |].
  exists s', tl'. split; [exact E |].
  apply (train_step_unanswered_row backprop _ _ _ _ _ _ _ [None] E);
    [reflexivity | repeat constructor].
Defined.

Lemma load_data_train_step_witness :
  exists s' raw output,
    nth_error [[Some 1; None]] 0 = Some raw /\
    forward two_question_model (map zero_fill_cell raw) = Ok output /\
    train_step backprop (mkSGD 0.015) 0 0 0
      (mkTrainEnv two_question_model [[Some 1; None]] [[1; 0]])
    = (s', Ok (0 + (raw_sq_err output raw +
                    0 / 2 * get_weight_norm two_question_model))).
Proof.
  apply (load_data_train_step backprop 1 2 1 [[Some 1; None]] one_triple
           one_triple two_question_model (mkSGD 0.015) 0 0 0).
  - unfold wf_matrix. simpl. repeat constructor.
  - solve_wf.
  - lia.
Defined.

Lemma main_outcome_witness :
  exists s1 accs losses,
    train backprop 0.015 0 one_triple 80
      (mkTrainEnv (zeros_model 1 50) [[Some 1]] [[1]])
    = (s1, Ok (accs, losses)) /\
    length accs = 80%nat /\ length losses = 80%nat /\
    main backprop zeros_model [[Some 1]] one_triple one_triple
    = (mkTrainEnv (set_training false (tr_model s1))
         (tr_train_data s1) (tr_zero_train_data s1),
       py_div (correct_count (tr_model s1) (tr_zero_train_data s1) one_triple)
         1) /\
    exists acc,
      snd (main backprop zeros_model [[Some 1]] one_triple one_triple)
      = Ok acc /\ 0 <= acc <= 1.
Proof.
  assert (Hmat : wf_matrix 1 1 [[Some 1]])
    by (unfold wf_matrix; simpl; repeat constructor).
  destruct (main_outcome backprop zeros_model 1 1 [[Some 1]] one_triple
              one_triple zeros_model_wf (backprop_shape 1 50) Hmat
              ltac:(lia) one_triple_wf ltac:(discriminate) one_triple_wf)
    as (s1 & accs & losses & Et & La & Ll & Em & Hne & _).
  exists s1, accs, losses. split; [exact Et |]. split; [exact La |].
  split; [exact Ll |]. split; [exact Em |].
  destruct (Hne ltac:(discriminate)) as (acc & Ea & _ & Hr).
  exists acc. split; [exact Ea | exact Hr].
Defined.

Lemma train_zero_rate_witness :
  exists s' series,
    train backprop 0 0 one_triple 1 one_user_env = (s', Ok series) /\
    same_parameters zero_model (tr_model s').
Proof.
  destruct (train_completes backprop 1 1 1 (backprop_shape 1 1) 0 0
              one_triple 1 one_user_env) as (s' & series & E & _);
    [lra | lia | exact one_user_env_wf | exact one_triple_wf | discriminate |].
  exists s', series. split; [exact E |].
  exact (train_zero_rate backprop 1 1 1 (backprop_shape 1 1) _ _ _ _ _ _
           one_user_env_wf E).
Defined.
